(** * Watson recipe bot on JanusGraph: the script client and the recipe store

    A shallow embedding of [JanusGraphClient.js] and [JanusGraphRecipeStore.js]
    and the properties of the design document that can be stated over it.

    Conventions.
    - A JavaScript string is a [string]: a sequence of code units below 256
      (the Latin-1 range), which is closed under [toLowerCase] and [trim].
    - A promise is an [outcome]: resolved with a value or rejected.
    - The remote service is reached through one function [rp] (the
      [request-promise] call of the client); the store and the client are
      written against an arbitrary [rp], and [GraphService] gives one
      in-memory service to run them against. *)

From Stdlib Require Import ZArith Ascii String List Permutation Sorted Lia Bool.
From Stdlib Require Import Numbers.DecimalString.
From stdpp Require Import gmap strings list sorting.

Import ListNotations.
Local Open Scope Z_scope.

(** ** JavaScript strings *)

Module JsString.

Definition backslash : ascii := "092"%char.
Definition dquote : ascii := "034"%char.
Definition dollar : ascii := "036"%char.
Definition comma : ascii := "044"%char.

(** [s.replace(new RegExp(c, 'g'), r)] for a pattern that is the single
    literal character [c]; [r] holds no [$]-pattern that refers to the
    match. *)
Fixpoint replaceAll1 (c : ascii) (r : string) (s : string) : string :=
  match s with
  | EmptyString => EmptyString
  | String a s' =>
      if Ascii.eqb a c then r +:+ replaceAll1 c r s'
      else String a (replaceAll1 c r s')
  end.

(** The same for a pattern that is the two literal characters [c1 c2]:
    matches are taken left to right and do not overlap. *)
Fixpoint replaceAll2 (c1 c2 : ascii) (r : string) (s : string) : string :=
  match s with
  | EmptyString => EmptyString
  | String a s' =>
      match s' with
      | String b s'' =>
          if Ascii.eqb a c1 && Ascii.eqb b c2 then r +:+ replaceAll2 c1 c2 r s''
          else String a (replaceAll2 c1 c2 r s')
      | EmptyString => String a EmptyString
      end
  end.

(** White space of [String.prototype.trim] among the code units below
    256: TAB, LF, VT, FF, CR, SP and NBSP. *)
Definition isWhiteSpace (c : ascii) : bool :=
  let n := N_of_ascii c in
  ((9 <=? n) && (n <=? 13) || (n =? 32) || (n =? 160))%N.

(** [toLowerCase] on one code unit below 256: A-Z and the Latin-1 capitals
    U+00C0..U+00DE (without the multiplication sign U+00D7) move up by 32. *)
Definition toLowerChar (c : ascii) : ascii :=
  let n := N_of_ascii c in
  if ((65 <=? n) && (n <=? 90) || (192 <=? n) && (n <=? 222) && negb (n =? 215))%N
  then ascii_of_N (n + 32) else c.

Fixpoint toLowerCase (s : string) : string :=
  match s with
  | EmptyString => EmptyString
  | String c s' => String (toLowerChar c) (toLowerCase s')
  end.

Fixpoint trimStart (s : string) : string :=
  match s with
  | EmptyString => EmptyString
  | String c s' => if isWhiteSpace c then trimStart s' else s
  end.

Fixpoint trimEnd (s : string) : string :=
  match s with
  | EmptyString => EmptyString
  | String c s' =>
      match trimEnd s' with
      | EmptyString => if isWhiteSpace c then EmptyString else String c EmptyString
      | r => String c r
      end
  end.

Definition trim (s : string) : string := trimStart (trimEnd s).

(** [s.split(',')]: the pieces between the commas, never an empty array. *)
Fixpoint split_comma (s : string) : list string :=
  match s with
  | EmptyString => [EmptyString]
  | String c s' =>
      if Ascii.eqb c comma then EmptyString :: split_comma s'
      else match split_comma s' with
           | h :: t => String c h :: t
           | [] => [String c EmptyString]
           end
  end.

(** [a.join(',')] *)
Fixpoint join_comma (l : list string) : string :=
  match l with
  | [] => EmptyString
  | [x] => x
  | x :: t => x +:+ String comma (join_comma t)
  end.

(** [Array.prototype.sort()] without a comparator orders strings by
    their code units; [String.leb] is that order.  Equal strings cannot be
    told apart, so every sorting algorithm gives the same array; insertion
    sort stands for the engine's. *)
Fixpoint insert_sorted (x : string) (l : list string) : list string :=
  match l with
  | [] => [x]
  | y :: t => if String.leb x y then x :: l else y :: insert_sorted x t
  end.

Fixpoint sort (l : list string) : list string :=
  match l with
  | [] => []
  | x :: t => insert_sorted x (sort t)
  end.

(** [`${n}`] for an integer that is a safe integer of JavaScript, up to
    2^53 - 1 in magnitude: its decimal digits.  (Beyond, the digits are those
    of the nearest double, and from 10^21 on the text has an exponent.) *)
Definition of_Z (n : Z) : string := NilEmpty.string_of_int (Z.to_int n).

(** A double-quoted literal, as the templates write them. *)
Definition quoted (s : string) : string :=
  String dquote (s +:+ String dquote EmptyString).

End JsString.
Import JsString.

(** ** JanusGraphClient.escapeStringValue *)

Definition escapeStringValue (value : string) : string :=
  (* first escape escaped double quotes, then all double quotes *)
  let value := replaceAll2 backslash dquote
                 (String backslash (String backslash (String dquote EmptyString))) value in
  let value := replaceAll1 dquote (String backslash (String dquote EmptyString)) value in
  (* escape dollar signs *)
  replaceAll1 dollar (String backslash (String dollar EmptyString)) value.

(** The rule as the design document words it: the first substitution writes a
    backslash-escaped quote back in the same form. *)
Definition escapeStringValue_same_form (value : string) : string :=
  let value := replaceAll2 backslash dquote
                 (String backslash (String dquote EmptyString)) value in
  let value := replaceAll1 dquote (String backslash (String dquote EmptyString)) value in
  replaceAll1 dollar (String backslash (String dollar EmptyString)) value.

(** One scan, left to right, that explains the three substitutions. *)
Fixpoint escape_scan (s : string) : string :=
  match s with
  | EmptyString => EmptyString
  | String a s' =>
      match s' with
      | String b s'' =>
          if Ascii.eqb a backslash && Ascii.eqb b dquote
          then String backslash (String backslash (String backslash
                 (String dquote (escape_scan s''))))
          else if Ascii.eqb a dquote then String backslash (String dquote (escape_scan s'))
          else if Ascii.eqb a dollar then String backslash (String dollar (escape_scan s'))
          else String a (escape_scan s')
      | EmptyString =>
          if Ascii.eqb a dquote then String backslash (String dquote EmptyString)
          else if Ascii.eqb a dollar then String backslash (String dollar EmptyString)
          else String a EmptyString
      end
  end.

(** Character by character: a quote and a dollar sign get a backslash. *)
Fixpoint escape_chars (s : string) : string :=
  match s with
  | EmptyString => EmptyString
  | String a s' =>
      if Ascii.eqb a dquote then String backslash (String dquote (escape_chars s'))
      else if Ascii.eqb a dollar then String backslash (String dollar (escape_chars s'))
      else String a (escape_chars s')
  end.

(** Does [s] hold a backslash directly followed by a double quote? *)
Fixpoint has_escaped_quote (s : string) : bool :=
  match s with
  | EmptyString => false
  | String a s' =>
      match s' with
      | String b _ => (Ascii.eqb a backslash && Ascii.eqb b dquote) || has_escaped_quote s'
      | EmptyString => false
      end
  end.

(** ** Wire data: what the store sends and what the service answers *)

(** A property value of a script: text, a number or a boolean.  The numbers
    are the integers among the doubles of JavaScript. *)
Inductive prop_value :=
| PStr (s : string)
| PNum (n : Z)
| PBool (b : bool).

(** A JavaScript object used as a property bag: the own enumerable keys in
    insertion order, which is the order [for ... in] visits them when none of
    them is an array index (such keys would come first). *)
Definition props := list (string * prop_value).

Fixpoint js_get {A} (k : string) (o : list (string * A)) : option A :=
  match o with
  | [] => None
  | (k', v) :: o' => if String.eqb k k' then Some v else js_get k o'
  end.

(** [o[k] = v]: an existing key keeps its place, a new key goes last. *)
Fixpoint js_set {A} (k : string) (v : A) (o : list (string * A)) : list (string * A) :=
  match o with
  | [] => [(k, v)]
  | (k', v') :: o' => if String.eqb k k' then (k, v) :: o' else (k', v') :: js_set k v o'
  end.

(** [`${x}`]: a missing value prints as [undefined]. *)
Definition template (x : option prop_value) : string :=
  match x with
  | None => "undefined"
  | Some (PStr s) => s
  | Some (PNum n) => of_Z n
  | Some (PBool true) => "true"
  | Some (PBool false) => "false"
  end.

(** ToBoolean of a property value that may be missing. *)
Definition truthy (x : option prop_value) : bool :=
  match x with
  | None => false
  | Some (PStr s) => negb (String.eqb s "")
  | Some (PNum n) => negb (n =? 0)
  | Some (PBool b) => b
  end.

(** The double nearest to the integer [m], ties going to the even
    significand.  Every integer up to 2^53 in magnitude is a double; a larger
    one keeps the 53 leading bits of its magnitude, rounded. *)
Definition to_double (m : Z) : Z :=
  let a := Z.abs m in
  if a <=? 9007199254740992 then m
  else
    let q := 2 ^ (Z.log2 a - 52) in
    let significand := a / q in
    let rest := a mod q in
    let up := (q <? 2 * rest) || ((2 * rest =? q) && Z.odd significand) in
    Z.sgn m * ((if up then significand + 1 else significand) * q).

(** [x + 1]: addition of doubles, but concatenation when [x] is a string. *)
Definition js_plus_one (x : prop_value) : prop_value :=
  match x with
  | PNum n => PNum (to_double (n + 1))
  | PStr s => PStr (s +:+ "1")
  | PBool b => PNum ((if b then 1 else 0) + 1)
  end.

(** An identifier read off an element: [undefined] when the field is absent. *)
Definition js_id := option Z.

Definition template_id (i : js_id) : string :=
  match i with Some n => of_Z n | None => "undefined" end.

(** Graph elements as the service serialises them: a vertex carries, per
    key, the list of its values ([properties.name[0].value]); an edge carries
    its values directly ([properties.count]) and no [properties] field at
    all when it has none. *)
Record vertex := {
  v_id : Z;
  v_label : string;
  v_properties : list (string * list prop_value)
}.

Record edge := {
  e_id : Z;
  e_label : string;
  e_outV : Z;
  e_inV : Z;
  e_properties : option props
}.

Inductive element :=
| EVertex (v : vertex)
| EEdge (e : edge).

(** One entry of [result.data]: an element, or a path with its [objects]. *)
Inductive row :=
| Elem (x : element)
| Path (objects : list element).

Record status_t := { code : option Z }.
Record result_t := { data : option (list row) }.

(** The response envelope; either part may be missing. *)
Record response := {
  status : option status_t;
  result : option result_t
}.

(** The steps of the traversal language that the store writes. *)
Inductive step :=
| V_all                                  (* V() *)
| V_id (i : js_id)                       (* V(${i}) *)
| hasLabel (l : string)                  (* hasLabel("l") *)
| has_eq (k v : string)                  (* has("k", "v") *)
| has_value (k v : string)               (* has("k","v"), the same without the blank *)
| has_gt (k : string) (n : Z)            (* has("k",gt(n)) *)
| has_neq (k v : string)                 (* has("k",neq("v")) *)
| outE | inE | inV | outV                (* outE() inE() inV() outV() *)
| in_ (l : string)                       (* in("l") *)
| hasId (i : js_id)                      (* hasId(${i}) *)
| order_by_decr (k : string)             (* order().by("k", decr) *)
| limit (n : Z)                          (* limit(${n}) *)
| path.                                  (* path() *)

(** What follows the statement that opens the bound graph. *)
Inductive statement :=
| Traverse (steps : list step)
    (* def g = graph.traversal(); g.<steps> *)
| AddVertex (label : string) (fields : props)
    (* graph.addVertex(T.label, "label", "k", v, ...); *)
| AddEdge (label : string) (outV inV : js_id) (properties : props)
    (* def g = graph.traversal();def outV = g.V(${outV}).next();
       def inV = g.V(${inV}).next();outV.addEdge("label", inV, "k", v, ...); *)
| SetEdgeProperties (id : js_id) (properties : props).
    (* def g = graph.traversal();g.E("${id}").property("k", v)...; *)

Inductive script :=
| OpenGraph (id : string)
    (* def graph=ConfiguredGraphFactory.open("${id}");0; *)
| CreateGraph (id : string)
    (* def graph=ConfiguredGraphFactory.create("${id}");0; *)
| OnGraph (graphId : string) (s : statement).
    (* def graph=ConfiguredGraphFactory.open("${graphId}"); followed by s *)

(** *** The text of a script

    The client sends text; [script_text] is that text, character for
    character.  The service model below reads the statements, not the text:
    they are what the text says as long as the interpolated values do not
    break out of their literals.  Only [createVertex], [createEdge] and
    [updateEdge] escape the values they interpolate; the lookups of the store
    do not. *)
Module ScriptText.

Definition isStringValue (v : prop_value) : bool :=
  match v with PStr _ => true | _ => false end.

(** [, "k", "escaped"] for text and [, "k", v] otherwise. *)
Definition literal (v : prop_value) : string :=
  match v with
  | PStr s => quoted (escapeStringValue s)
  | _ => template (Some v)
  end.

Definition argument (kv : string * prop_value) : string :=
  ", " +:+ quoted (fst kv) +:+ ", " +:+ literal (snd kv).

Definition property_call (kv : string * prop_value) : string :=
  ".property(" +:+ quoted (fst kv) +:+ ", " +:+ literal (snd kv) +:+ ")".

Fixpoint concat_map {A} (f : A -> string) (l : list A) : string :=
  match l with
  | [] => EmptyString
  | x :: t => f x +:+ concat_map f t
  end.

Definition step_text (s : step) : string :=
  match s with
  | V_all => ".V()"
  | V_id i => ".V(" +:+ template_id i +:+ ")"
  | hasLabel l => ".hasLabel(" +:+ quoted l +:+ ")"
  | has_eq k v => ".has(" +:+ quoted k +:+ ", " +:+ quoted v +:+ ")"
| has_value k v => ".has(" +:+ quoted k +:+ "," +:+ quoted v +:+ ")"
  | has_gt k n => ".has(" +:+ quoted k +:+ ",gt(" +:+ of_Z n +:+ "))"
  | has_neq k v => ".has(" +:+ quoted k +:+ ",neq(" +:+ quoted v +:+ "))"
  | outE => ".outE()"
  | inE => ".inE()"
  | inV => ".inV()"
  | outV => ".outV()"
  | in_ l => ".in(" +:+ quoted l +:+ ")"
  | hasId i => ".hasId(" +:+ template_id i +:+ ")"
  | order_by_decr k => ".order().by(" +:+ quoted k +:+ ", decr)"
  | limit n => ".limit(" +:+ of_Z n +:+ ")"
  | path => ".path()"
  end.

Definition statement_text (s : statement) : string :=
  match s with
  | Traverse steps => "def g = graph.traversal(); g" +:+ concat_map step_text steps
  | AddVertex label fields =>
      "graph.addVertex(T.label, " +:+ quoted label +:+ concat_map argument fields +:+ ");"
  | AddEdge label o i properties =>
      "def g = graph.traversal();"
      +:+ "def outV = g.V(" +:+ template_id o +:+ ").next();"
      +:+ "def inV = g.V(" +:+ template_id i +:+ ").next();"
      +:+ "outV.addEdge(" +:+ quoted label +:+ ", inV" +:+ concat_map argument properties +:+ ");"
  | SetEdgeProperties id properties =>
      "def g = graph.traversal();"
      +:+ "g.E(" +:+ quoted (template_id id) +:+ ")" +:+ concat_map property_call properties +:+ ";"
  end.

Definition script_text (s : script) : string :=
  match s with
  | OpenGraph id => "def graph=ConfiguredGraphFactory.open(" +:+ quoted id +:+ ");0;"
  | CreateGraph id => "def graph=ConfiguredGraphFactory.create(" +:+ quoted id +:+ ");0;"
  | OnGraph graphId st =>
      "def graph=ConfiguredGraphFactory.open(" +:+ quoted graphId +:+ ");" +:+ statement_text st
  end.

End ScriptText.

(** ** Promises over a remote service *)

Inductive error :=
| TransportError      (* request-promise rejected: no answer or not a 2xx answer *)
| InvalidStatus       (* new Error('Invalid status returned from server.') *)
| TypeError.          (* a property read on undefined or null *)

Inductive outcome (A : Type) :=
| Resolved (a : A)
| Rejected (e : error).
Arguments Resolved {A} a.
Arguments Rejected {A} e.

(** What [rp(options)] settles to: a rejection, or the parsed body, which is
    an envelope or something without fields ([None]). *)
Inductive rp_outcome :=
| RpError
| RpBody (body : option response).

(** The value of [a && b && c == 200]: the first falsy operand, else the
    comparison. *)
Inductive js_value :=
| JUndefined
| JNum (n : Z)
| JBool (b : bool).

Definition ToBoolean (v : js_value) : bool :=
  match v with
  | JUndefined => false
  | JNum n => negb (n =? 0)
  | JBool b => b
  end.

(** [body.status && body.status.code && body.status.code == 200] *)
Definition status_is_200 (body : response) : js_value :=
  match status body with
  | None => JUndefined
  | Some st =>
      match code st with
      | None => JUndefined
      | Some c => if c =? 0 then JNum 0 else JBool (c =? 200)
      end
  end.

(** [response.result && response.result.data && response.result.data.length > 0] *)
Definition rows (r : response) : list row :=
  match result r with
  | Some {| data := Some d |} => d
  | _ => []
  end.

(** The shared ending of the lookups: [data[0]] when there is a row,
    [null] otherwise. *)
Definition first_row_or_null (r : response) : option row :=
  match rows r with
  | x :: _ => Some x
  | [] => None
  end.

Section Client.

(** The service: its state and how it answers one script. *)
Context {S : Type}.
Variable rp : script -> S -> rp_outcome * S.

(** The client object ([this.graphId]), the service behind it, and the
    scripts posted so far. *)
Record world := {
  service : S;
  graphId : option string;
  requests : list script
}.

Definition M (A : Type) : Type := world -> outcome A * world.

Definition ret {A} (a : A) : M A := fun w => (Resolved a, w).
Definition reject {A} (e : error) : M A := fun w => (Rejected e, w).
Definition bind {A B} (m : M A) (k : A -> M B) : M B :=
  fun w =>
    match m w with
    | (Resolved a, w') => k a w'
    | (Rejected e, w') => (Rejected e, w')
    end.
Definition catch {A} (m : M A) (h : M A) : M A :=
  fun w =>
    match m w with
    | (Resolved a, w') => (Resolved a, w')
    | (Rejected _, w') => h w'
    end.

Notation "'let*' x ':=' m 'in' k" := (bind m (fun x => k))
  (at level 10, x name, m at level 100, k at level 200).

(** [rp(this.getPostOptions({gremlin: ...}))] *)
Definition post (s : script) : M (option response) :=
  fun w =>
    let (o, sv) := rp s (service w) in
    let w' := {| service := sv; graphId := graphId w; requests := requests w ++ [s] |} in
    match o with
    | RpError => (Rejected TransportError, w')
    | RpBody b => (Resolved b, w')
    end.

(** Reading [.status] off a body that has no fields throws. *)
Definition body_status (b : option response) : M js_value :=
  match b with
  | Some r => ret (status_is_200 r)
  | None => reject TypeError
  end.

(** *** JanusGraphClient *)

Definition graphExists (id : string) : M js_value :=
  catch (let* responseBody := post (OpenGraph id) in body_status responseBody)
        (ret (JBool false)).

Definition getOrCreateGraph (id : string) : M js_value :=
  let* exists_ := graphExists id in
  if ToBoolean exists_ then ret (JBool true)
  else let* responseBody := post (CreateGraph id) in body_status responseBody.

Definition setGraphId (id : string) : M unit :=
  fun w => (Resolved tt, {| service := service w; graphId := Some id; requests := requests w |}).

(** [`${this.graphId}`] *)
Definition bound_graph (w : world) : string := template (option_map PStr (graphId w)).

Definition runGremlinQuery (gremlinQuery : statement) : M response :=
  fun w =>
    (let* responseBody := post (OnGraph (bound_graph w) gremlinQuery) in
     match responseBody with
     | None => reject TypeError
     | Some r => if ToBoolean (status_is_200 r) then ret r else reject InvalidStatus
     end) w.

(** The object literal of a new vertex: its [label] and its other keys. *)
Record vertex_object := {
  vertex_label : string;
  vertex_fields : props
}.

(** [vertex[k]] *)
Definition vertex_get (vertex : vertex_object) (k : string) : option prop_value :=
  if String.eqb k "label" then Some (PStr (vertex_label vertex))
  else js_get k (vertex_fields vertex).

Definition createVertex (vertex : vertex_object) : M (option row) :=
  let* response := runGremlinQuery (AddVertex (vertex_label vertex) (vertex_fields vertex)) in
  ret (first_row_or_null response).

(** [for (let property in properties)] visits nothing when [properties]
    is undefined. *)
Definition own_properties (properties : option props) : props :=
  match properties with Some p => p | None => [] end.

Definition createEdge (label : string) (outV inV : js_id) (properties : option props)
  : M (option row) :=
  let* response := runGremlinQuery (AddEdge label outV inV (own_properties properties)) in
  ret (first_row_or_null response).

Definition updateEdge (id : js_id) (properties : props) : M response :=
  runGremlinQuery (SetEdgeProperties id properties).

End Client.

(** ** JanusGraphRecipeStore *)

(** The object literal of an edge to record; [has] edges carry no
    [properties]. *)
Record edge_object := {
  edge_label : string;
  edge_outV : js_id;
  edge_inV : js_id;
  edge_properties : option props
}.

(** What [addUpdateEdge] resolves to: the response of the update, or the
    echo of the creation. *)
Inductive edge_recorded :=
| Updated (r : response)
| Created (e : option row).

(** An entry of the recommendation list and of the favourites list. *)
Record recommended := {
  id : prop_value;
  title : prop_value;
  recommendedUserCount : Z
}.

Record favorite := {
  favorite_id : prop_value;
  favorite_title : prop_value
}.

(** [x.id] of a value the service returned. *)
Definition row_id (r : row) : js_id :=
  match r with
  | Elem (EVertex v) => Some (v_id v)
  | Elem (EEdge e) => Some (e_id e)
  | Path _ => None
  end.

(** [v.properties[k][0].value] throws when the key or its first value is
    missing. *)
Definition property_value (v : vertex) (k : string) : outcome prop_value :=
  match js_get k (v_properties v) with
  | Some (x :: _) => Resolved x
  | _ => Rejected TypeError
  end.

(** [path.objects[1]] read as a vertex.  An edge at that place is outside the
    wire contract of the recommendation query and is refused here. *)
Definition path_vertex (r : row) : outcome vertex :=
  match r with
  | Path objects =>
      match objects !! 1%nat with
      | Some (EVertex v) => Resolved v
      | _ => Rejected TypeError
      end
  | Elem _ => Rejected TypeError
  end.

(** [data[0].objects[1]] read as an edge.  A vertex at that place is outside
    the wire contract of the edge lookup and is refused here. *)
Definition path_edge (r : row) : outcome edge :=
  match r with
  | Path objects =>
      match objects !! 1%nat with
      | Some (EEdge e) => Resolved e
      | _ => Rejected TypeError
      end
  | Elem _ => Rejected TypeError
  end.

(** A value handed to the store as a vertex, read as one: [null] and a path
    have no [properties] to read, which throws; an edge is outside the
    contract of the callers and is refused here as well. *)
Definition row_vertex (r : option row) : outcome vertex :=
  match r with
  | Some (Elem (EVertex v)) => Resolved v
  | _ => Rejected TypeError
  end.

Definition getUniqueIngredientsName (ingredientsStr : string) : string :=
  let ingredients := split_comma (toLowerCase (trim ingredientsStr)) in
  let ingredients := map trim ingredients in
  let ingredients := sort ingredients in
  join_comma ingredients.

Definition getUniqueCuisineName (cuisine : string) : string :=
  toLowerCase (trim cuisine).

Definition getUniqueRecipeName (recipeId : prop_value) : string :=
  toLowerCase (trim (template (Some recipeId))).

(** [.replace(/'/g, '\\\'')] and [.replace(/\n/g, '\\\\n')] *)
Definition escape_apostrophes (s : string) : string :=
  replaceAll1 "039"%char (String backslash (String "039"%char EmptyString)) s.

Definition escape_newlines (s : string) : string :=
  replaceAll1 "010"%char (String backslash (String backslash (String "n"%char EmptyString))) s.

(** *** The loop of [getRecommendedRecipes]

    [recipes] and [recipeHash] hold references to the same objects, so the
    objects live in a heap, in the order they were made. *)
Record recommending := {
  heap : list recommended;
  recipes : list nat;
  recipeHash : gmap string nat
}.

(** [recipeHash] is an object literal: a key that it does not own is looked
    up in [Object.prototype], whose properties are all truthy. *)
Definition object_prototype_keys : list string :=
  ["constructor"; "__defineGetter__"; "__defineSetter__"; "hasOwnProperty";
   "__lookupGetter__"; "__lookupSetter__"; "isPrototypeOf"; "propertyIsEnumerable";
   "toString"; "valueOf"; "__proto__"; "toLocaleString"].

Inductive hash_entry :=
| Own (ref : nat)
| Inherited
| Missing.

Definition hash_get (h : gmap string nat) (k : string) : hash_entry :=
  match h !! k with
  | Some r => Own r
  | None => if bool_decide (k ∈ object_prototype_keys) then Inherited else Missing
  end.

Definition increment (r : recommended) : recommended :=
  {| id := id r; title := title r; recommendedUserCount := recommendedUserCount r + 1 |}.

(** One turn of [for (let path of paths)]. *)
Definition recommend_step (count : Z) (st : recommending) (p : row) : outcome recommending :=
  match path_vertex p with
  | Rejected e => Rejected e
  | Resolved recipeVertex =>
      match property_value recipeVertex "name" with
      | Rejected e => Rejected e
      | Resolved recipeId =>
          match hash_get (recipeHash st) (template (Some recipeId)) with
          | Missing =>
              if Z.of_nat (length (recipes st)) >=? count then Resolved st
              else
                match property_value recipeVertex "title" with
                | Rejected e => Rejected e
                | Resolved t =>
                    let recipe := {| id := recipeId; title := t; recommendedUserCount := 1 |} in
                    let ref := length (heap st) in
                    Resolved {| heap := heap st ++ [recipe];
                                recipes := recipes st ++ [ref];
                                recipeHash := <[template (Some recipeId) := ref]> (recipeHash st) |}
                end
          | Own ref =>
              Resolved {| heap := alter increment ref (heap st);
                          recipes := recipes st;
                          recipeHash := recipeHash st |}
          | Inherited =>
              (* the increment lands on a property of Object.prototype *)
              Resolved st
          end
      end
  end.

Fixpoint recommend_loop (count : Z) (st : recommending) (paths : list row)
  : outcome recommending :=
  match paths with
  | [] => Resolved st
  | p :: paths' =>
      match recommend_step count st p with
      | Resolved st' => recommend_loop count st' paths'
      | Rejected e => Rejected e
      end
  end.

Definition recommend_start : recommending :=
  {| heap := []; recipes := []; recipeHash := ∅ |}.

(** The array that is resolved: the objects behind [recipes]. *)
Definition recipes_of (st : recommending) : list recommended :=
  omap (fun ref => heap st !! ref) (recipes st).

Definition recommended_recipes (paths : list row) (count : Z) : outcome (list recommended) :=
  match recommend_loop count recommend_start paths with
  | Resolved st => Resolved (recipes_of st)
  | Rejected e => Rejected e
  end.

(** The loop of [findFavoriteRecipesForUser]. *)
Fixpoint favorite_recipes (recipeVertices : list row) : outcome (list favorite) :=
  match recipeVertices with
  | [] => Resolved []
  | r :: rest =>
      match row_vertex (Some r) with
      | Rejected e => Rejected e
      | Resolved recipeVertex =>
          match property_value recipeVertex "name", property_value recipeVertex "title" with
          | Resolved n, Resolved t =>
              match favorite_recipes rest with
              | Resolved l => Resolved ({| favorite_id := n; favorite_title := t |} :: l)
              | Rejected e => Rejected e
              end
          | Rejected e, _ => Rejected e
          | _, Rejected e => Rejected e
          end
      end
  end.

Section Store.

Context {S : Type}.
Variable rp : script -> S -> rp_outcome * S.

Notation "'let*' x ':=' m 'in' k" := (bind m (fun x => k))
  (at level 10, x name, m at level 100, k at level 200).

(** An [outcome] computed inside a [then] handler settles the promise. *)
Definition settle {A} (o : outcome A) : M (S := S) A := fun w => (o, w).

(** [x.id] throws on [null]. *)
Definition id_of (x : option row) : M (S := S) js_id :=
  match x with
  | Some r => ret (row_id r)
  | None => reject TypeError
  end.

Definition init (graphId : string) : M unit :=
  let* _ := getOrCreateGraph rp graphId in
  setGraphId graphId.

(** *** Graph helper methods *)

Definition findVertex (label propertyName propertyValue : string) : M (option row) :=
  let query := [V_all; hasLabel label; has_eq propertyName propertyValue] in
  let* response := runGremlinQuery rp (Traverse query) in
  ret (first_row_or_null response).

Definition addVertexIfNotExists (vertex : vertex_object) (uniquePropertyName : string)
  : M (option row) :=
  let propertyValue := template (vertex_get vertex uniquePropertyName) in
  let query := [V_all; hasLabel (vertex_label vertex);
                has_eq uniquePropertyName propertyValue] in
  let* response := runGremlinQuery rp (Traverse query) in
  match rows response with
  | x :: _ => ret (Some x)
  | [] => createVertex rp vertex
  end.

Definition addEdgeIfNotExists (edge : edge_object) : M (option row) :=
  let query := [V_id (edge_outV edge); outE; inV; hasId (edge_inV edge); path] in
  let* response := runGremlinQuery rp (Traverse query) in
  match rows response with
  | x :: _ => ret (Some x)
  | [] => createEdge rp (edge_label edge) (edge_outV edge) (edge_inV edge)
            (edge_properties edge)
  end.

Definition addUpdateEdge (edge : edge_object) : M edge_recorded :=
  let query := [V_id (edge_outV edge); outE; inV; hasId (edge_inV edge); path] in
  let* response := runGremlinQuery rp (Traverse query) in
  match rows response with
  | x :: _ =>
      let* edge := settle (path_edge x) in
      let properties := own_properties (e_properties edge) in
      let count :=
        if truthy (js_get "count" properties)
        then default (PNum 0) (js_get "count" properties)
        else PNum 0 in
      let properties := js_set "count" (js_plus_one count) properties in
      let* r := updateEdge rp (Some (e_id edge)) properties in
      ret (Updated r)
  | [] =>
      let* e := createEdge rp (edge_label edge) (edge_outV edge) (edge_inV edge)
                  (edge_properties edge) in
      ret (Created e)
  end.

(** *** Users, ingredients and cuisines *)

Definition addUser (userId : string) : M (option row) :=
  let userVertex := {| vertex_label := "person"; vertex_fields := [("name", PStr userId)] |} in
  addVertexIfNotExists userVertex "name".


Definition recordIngredientRequestForUser (ingredientVertex userVertex : option row)
  : M edge_recorded :=
  let* o := id_of userVertex in
  let* i := id_of ingredientVertex in
  let edge := {| edge_label := "selects"; edge_outV := o; edge_inV := i;
                 edge_properties := Some [("count", PNum 1)] |} in
  addUpdateEdge edge.

(** [matchingRecipes] stands for [JSON.stringify(matchingRecipes)]. *)
Definition addIngredient (ingredientsStr matchingRecipes : string) (userVertex : option row)
  : M (option row) :=
  let ingredientVertex :=
    {| vertex_label := "ingredient";
       vertex_fields := [("name", PStr (getUniqueIngredientsName ingredientsStr));
                         ("detail", PStr (escape_apostrophes matchingRecipes))] |} in
  let* vertex := addVertexIfNotExists ingredientVertex "name" in
  let* _ := recordIngredientRequestForUser vertex userVertex in
  ret vertex.


Definition recordCuisineRequestForUser (cuisineVertex userVertex : option row)
  : M edge_recorded :=
  let* o := id_of userVertex in
  let* i := id_of cuisineVertex in
  let edge := {| edge_label := "selects"; edge_outV := o; edge_inV := i;
                 edge_properties := Some [("count", PNum 1)] |} in
  addUpdateEdge edge.

Definition addCuisine (cuisine matchingRecipes : string) (userVertex : option row)
  : M (option row) :=
  let cuisineVertex :=
    {| vertex_label := "cuisine";
       vertex_fields := [("name", PStr (getUniqueCuisineName cuisine));
                         ("detail", PStr (escape_apostrophes matchingRecipes))] |} in
  let* vertex := addVertexIfNotExists cuisineVertex "name" in
  let* _ := recordCuisineRequestForUser vertex userVertex in
  ret vertex.

(** *** Recipes *)


Definition recordRecipeRequestForUser
    (recipeVertex ingredientCuisineVertex userVertex : option row) : M (option row) :=
  (* add one edge from the user to the recipe *)
  let* o := id_of userVertex in
  let* i := id_of recipeVertex in
  let edge := {| edge_label := "selects"; edge_outV := o; edge_inV := i;
                 edge_properties := Some [("count", PNum 1)] |} in
  let* _ := addUpdateEdge edge in
  match ingredientCuisineVertex with
  | Some _ =>
      (* add one edge from the ingredient/cuisine to the recipe *)
      let* o := id_of ingredientCuisineVertex in
      let* i := id_of recipeVertex in
      let edge := {| edge_label := "selects"; edge_outV := o; edge_inV := i;
                     edge_properties := Some [("count", PNum 1)] |} in
      let* _ := addUpdateEdge edge in
      let* o := id_of recipeVertex in
      let* i := id_of ingredientCuisineVertex in
      let edge := {| edge_label := "has"; edge_outV := o; edge_inV := i;
                     edge_properties := None |} in
      addEdgeIfNotExists edge
  | None => ret None
  end.

Definition addRecipe (recipeId : prop_value) (recipeTitle recipeDetail : string)
    (ingredientCuisineVertex userVertex : option row) : M (option row) :=
  let recipeVertex :=
    {| vertex_label := "recipe";
       vertex_fields := [("name", PStr (getUniqueRecipeName recipeId));
                         ("title", PStr (escape_apostrophes (trim recipeTitle)));
                         ("detail", PStr (escape_newlines (escape_apostrophes recipeDetail)))] |} in
  let* vertex := addVertexIfNotExists recipeVertex "name" in
  let* _ := recordRecipeRequestForUser vertex ingredientCuisineVertex userVertex in
  ret vertex.

(** [userVertex.properties.name[0].value]; the exception that the source
    throws before it posts anything is a rejection here. *)
Definition user_name (userVertex : option row) : M (S := S) prop_value :=
  let* v := settle (row_vertex userVertex) in
  settle (property_value v "name").

Definition findFavoriteRecipesForUser (userVertex : option row) (count : Z)
  : M (list favorite) :=
  let* name := user_name userVertex in
  let query := [V_all; hasLabel "person"; has_eq "name" (template (Some name));
                outE; order_by_decr "count"; inV; hasLabel "recipe"; limit count] in
  let* response := runGremlinQuery rp (Traverse query) in
  match rows response with
  | _ :: _ => settle (favorite_recipes (rows response))
  | [] => ret []
  end.

Definition getRecommendedRecipes (query : list step) (count : Z) : M (list recommended) :=
  let* response := runGremlinQuery rp (Traverse query) in
  match rows response with
  | _ :: _ => settle (recommended_recipes (rows response) count)
  | [] => ret []
  end.

Definition findRecommendedRecipesForIngredient (ingredientsStr : string)
    (userVertex : option row) (count : Z) : M (list recommended) :=
  let ingredientsStr := getUniqueIngredientsName ingredientsStr in
  let* name := user_name userVertex in
  let query := [V_all; hasLabel "ingredient"; has_value "name" ingredientsStr;
                in_ "has";
                inE; has_gt "count" 1; order_by_decr "count";
                outV; hasLabel "person"; has_neq "name" (template (Some name));
                path] in
  getRecommendedRecipes query count.

Definition findRecommendedRecipesForCuisine (cuisine : string)
    (userVertex : option row) (count : Z) : M (list recommended) :=
  let cuisine := getUniqueCuisineName cuisine in
  let* name := user_name userVertex in
  let query := [V_all; hasLabel "cuisine"; has_value "name" cuisine;
                in_ "has";
                inE; has_gt "count" 1; order_by_decr "count";
                outV; hasLabel "person"; has_neq "name" (template (Some name));
                path] in
  getRecommendedRecipes query count.

End Store.

(** ** An in-memory graph service

    The remote service is not part of the repository.  This module gives the
    steps that the store writes their meaning in the traversal language, over
    a graph held in memory, so that the store can be run from one call to the
    next.  A script that would throw is answered like a failed request. *)
Module GraphService.

Record graph := {
  vertices : list vertex;
  edges : list edge;
  next_id : Z
}.

Definition empty : graph := {| vertices := []; edges := []; next_id := 1 |}.

(** A traverser: where it stands and what it has walked through. *)
Record traverser := {
  at_ : element;
  before : list element
}.

Definition start (x : element) : traverser := {| at_ := x; before := [] |}.
Definition move (t : traverser) (x : element) : traverser :=
  {| at_ := x; before := before t ++ [at_ t] |}.
Definition path_of (t : traverser) : list element := before t ++ [at_ t].

Definition element_id (x : element) : Z :=
  match x with EVertex v => v_id v | EEdge e => e_id e end.
Definition element_label (x : element) : string :=
  match x with EVertex v => v_label v | EEdge e => e_label e end.
Definition element_values (x : element) (k : string) : list prop_value :=
  match x with
  | EVertex v => default [] (js_get k (v_properties v))
  | EEdge e => match js_get k (own_properties (e_properties e)) with
               | Some v => [v]
               | None => []
               end
  end.

Definition find_vertex (g : graph) (i : Z) : option vertex :=
  List.find (fun v => v_id v =? i) (vertices g).

Definition is_text (s : string) (v : prop_value) : bool :=
  match v with PStr s' => String.eqb s s' | _ => false end.
Definition is_above (n : Z) (v : prop_value) : bool :=
  match v with PNum m => n <? m | _ => false end.

(** The number that [order().by(k, decr)] sorts on; none makes the script
    throw. *)
Definition sort_key (k : string) (t : traverser) : option Z :=
  match element_values (at_ t) k with
  | PNum n :: _ => Some n
  | _ => None
  end.

Fixpoint insert_decr (k : string) (t : traverser) (l : list traverser) : list traverser :=
  match l with
  | [] => [t]
  | u :: l' =>
      if default 0 (sort_key k u) <? default 0 (sort_key k t)
      then t :: l else u :: insert_decr k t l'
  end.

Definition sort_decr (k : string) (l : list traverser) : list traverser :=
  foldr (insert_decr k) [] l.

(** Where one traverser goes in one step; [None] when the step throws. *)
Definition step_from (g : graph) (s : step) (t : traverser) : option (list traverser) :=
  match s, at_ t with
  | hasLabel l, x => Some (if String.eqb (element_label x) l then [t] else [])
  | has_eq k v, x | has_value k v, x =>
    Some (if existsb (is_text v) (element_values x k) then [t] else [])
  | has_gt k n, x => Some (if existsb (is_above n) (element_values x k) then [t] else [])
  | has_neq k v, x =>
      Some (if existsb (fun y => negb (is_text v y)) (element_values x k) then [t] else [])
  | hasId (Some i), x => Some (if element_id x =? i then [t] else [])
  | outE, EVertex v =>
      Some (map (fun e => move t (EEdge e)) (filter (fun e => e_outV e = v_id v) (edges g)))
  | inE, EVertex v =>
      Some (map (fun e => move t (EEdge e)) (filter (fun e => e_inV e = v_id v) (edges g)))
  | in_ l, EVertex v =>
      Some (omap (fun e => option_map (fun u => move t (EVertex u)) (find_vertex g (e_outV e)))
              (filter (fun e => e_inV e = v_id v ∧ e_label e = l) (edges g)))
  | inV, EEdge e =>
      Some (match find_vertex g (e_inV e) with Some u => [move t (EVertex u)] | None => [] end)
  | outV, EEdge e =>
      Some (match find_vertex g (e_outV e) with Some u => [move t (EVertex u)] | None => [] end)
  | _, _ => None
  end.

(** Every traverser takes the step; the script throws if one of them does. *)
Fixpoint each (f : traverser -> option (list traverser)) (ts : list traverser)
  : option (list traverser) :=
  match ts with
  | [] => Some []
  | t :: ts' =>
      match f t, each f ts' with
      | Some a, Some b => Some (a ++ b)
      | _, _ => None
      end
  end.

Definition run_step (g : graph) (s : step) (ts : list traverser) : option (list traverser) :=
  match s with
  | order_by_decr k =>
      if forallb (fun t => bool_decide (is_Some (sort_key k t))) ts
      then Some (sort_decr k ts) else None
  | limit n => if n <? 0 then None else Some (take (Z.to_nat n) ts)
  | _ => each (step_from g s) ts
  end.

Fixpoint run_steps (g : graph) (steps : list step) (ts : list traverser)
  : option (list row) :=
  match steps with
  | [] => Some (map (fun t => Elem (at_ t)) ts)
  | [path] => Some (map (fun t => Path (path_of t)) ts)
  | s :: steps' =>
      match run_step g s ts with
      | Some ts' => run_steps g steps' ts'
      | None => None
      end
  end.

(** [g.V()...] and [g.V(i)...] *)
Definition traverse (g : graph) (steps : list step) : option (list row) :=
  match steps with
  | V_all :: steps' => run_steps g steps' (map (fun v => start (EVertex v)) (vertices g))
  | V_id (Some i) :: steps' =>
      run_steps g steps' (match find_vertex g i with
                          | Some v => [start (EVertex v)]
                          | None => []
                          end)
  | _ => None
  end.

Definition ok (d : list row) : rp_outcome :=
  RpBody (Some {| status := Some {| code := Some 200 |};
                  result := Some {| data := Some d |} |}).

(** An edge without properties is serialised without the field. *)
Definition stored_properties (p : props) : option props :=
  match p with [] => None | _ => Some p end.

Definition set_properties (p : props) (e : edge) : edge :=
  {| e_id := e_id e; e_label := e_label e; e_outV := e_outV e; e_inV := e_inV e;
     e_properties :=
       stored_properties
         (foldl (fun o kv => js_set (fst kv) (snd kv) o) (own_properties (e_properties e)) p) |}.

Definition update_edge (i : Z) (p : props) (e : edge) : edge :=
  if e_id e =? i then set_properties p e else e.

Definition run_statement (st : statement) (g : graph) : rp_outcome * graph :=
  match st with
  | Traverse steps =>
      match traverse g steps with
      | Some d => (ok d, g)
      | None => (RpError, g)
      end
  | AddVertex label fields =>
      let v := {| v_id := next_id g; v_label := label;
                  v_properties := map (fun kv => (fst kv, [snd kv])) fields |} in
      (ok [Elem (EVertex v)],
       {| vertices := vertices g ++ [v]; edges := edges g; next_id := next_id g + 1 |})
  | AddEdge label (Some o) (Some i) properties =>
      match find_vertex g o, find_vertex g i with
      | Some _, Some _ =>
          let e := {| e_id := next_id g; e_label := label; e_outV := o; e_inV := i;
                      e_properties := stored_properties properties |} in
          (ok [Elem (EEdge e)],
           {| vertices := vertices g; edges := edges g ++ [e]; next_id := next_id g + 1 |})
      | _, _ => (RpError, g)
      end
  | AddEdge _ _ _ _ => (RpError, g)
  | SetEdgeProperties (Some i) properties =>
      let es := map (update_edge i properties) (edges g) in
      (ok (map (fun e => Elem (EEdge e)) (filter (fun e => e_id e = i) es)),
       {| vertices := vertices g; edges := es; next_id := next_id g |})
  | SetEdgeProperties None _ => (RpError, g)
  end.

(** The service holds the one graph the client is bound to; opening and
    creating it succeed, and the value [0] of those scripts is not read. *)
Definition serve (s : script) (g : graph) : rp_outcome * graph :=
  match s with
  | OpenGraph _ | CreateGraph _ =>
      (RpBody (Some {| status := Some {| code := Some 200 |}; result := None |}), g)
  | OnGraph _ st => run_statement st g
  end.

(** A client bound to [graphId] in front of the graph [g]. *)
Definition bound (graphId : string) (g : graph) : world :=
  {| service := g; graphId := Some graphId; requests := [] |}.

Definition edges_between (g : graph) (o i : Z) : list edge :=
  filter (fun e => e_outV e = o ∧ e_inV e = i) (edges g).

End GraphService.

(** ** Vocabulary of the properties *)

(** Only white space. *)
Fixpoint all_white (s : string) : bool :=
  match s with
  | EmptyString => true
  | String c s' => isWhiteSpace c && all_white s'
  end.

Fixpoint has_comma (s : string) : bool :=
  match s with
  | EmptyString => false
  | String c s' => Ascii.eqb c comma || has_comma s'
  end.

(** Two spellings of one ingredient: the same text up to the case of its
    letters, with any white space around it. *)
Definition same_ingredient (e e' : string) : Prop :=
  exists l c r l' c' r',
    e = l +:+ c +:+ r /\ e' = l' +:+ c' +:+ r' /\
    all_white l = true /\ all_white r = true /\
    all_white l' = true /\ all_white r' = true /\
    toLowerCase c = toLowerCase c'.

(** Two lists that name the same ingredients, in any order. *)
Definition same_ingredients (xs ys : list string) : Prop :=
  exists zs, Permutation xs zs /\ Forall2 same_ingredient zs ys.

(** The order of [sort]. *)
Definition string_le (x y : string) : Prop := String.leb x y = true.

(** What the service answers to a script in a given world, and the world
    once the script has been posted. *)
Definition answer {S} (rp : script -> S -> rp_outcome * S) (s : script) (w : world) : rp_outcome :=
  fst (rp s (service w)).

Definition after {S} (rp : script -> S -> rp_outcome * S) (s : script) (w : world) : world :=
  {| service := snd (rp s (service w)); graphId := graphId w; requests := requests w ++ [s] |}.

(** A status-200 answer whose [result.data] is missing or empty. *)
Definition ok_without_rows (o : rp_outcome) : Prop :=
  exists r st,
    o = RpBody (Some r) /\ status r = Some st /\ code st = Some 200 /\
    (result r = None \/ result r = Some {| data := None |} \/ result r = Some {| data := Some [] |}).

(** A service that answers every script with the same body. *)
Definition constant_service (body : option response) : script -> unit -> rp_outcome * unit :=
  fun _ s => (RpBody body, s).

Definition unbound : world := {| service := tt; graphId := None; requests := [] |}.

(** *** The two-tier limit of the recommendation list *)

(** The name and the title of the recipe a path arrives through. *)
Definition recipe_at (p : row) : option (prop_value * prop_value) :=
  match path_vertex p with
  | Resolved v =>
      match property_value v "name", property_value v "title" with
      | Resolved n, Resolved t => Some (n, t)
      | _, _ => None
      end
  | Rejected _ => None
  end.

Definition recipe_key (nt : prop_value * prop_value) : string := template (Some (fst nt)).
Definition key_of (r : recommended) : string := template (Some (id r)).

(** How often the recipe [k] occurs. *)
Definition occurrences (k : string) (entries : list (prop_value * prop_value)) : Z :=
  Z.of_nat (length (filter (fun nt => recipe_key nt = k) entries)).

(** The entries that bring a recipe not in [seen] for the first time. *)
Fixpoint first_occurrences (seen : list string) (entries : list (prop_value * prop_value))
  : list (prop_value * prop_value) :=
  match entries with
  | [] => []
  | nt :: entries' =>
      if decide (recipe_key nt ∈ seen) then first_occurrences seen entries'
      else nt :: first_occurrences (seen ++ [recipe_key nt]) entries'
  end.

Definition counted (entries : list (prop_value * prop_value)) (nt : prop_value * prop_value)
  : recommended :=
  {| id := fst nt; title := snd nt; recommendedUserCount := occurrences (recipe_key nt) entries |}.

(** The object made for a recipe that is seen for the first time. *)
Definition emitted (nt : prop_value * prop_value) : recommended :=
  {| id := fst nt; title := snd nt; recommendedUserCount := 1 |}.

(** Recipes that were not emitted yet: the first [room] new ones come in,
    each with the number of all its occurrences. *)
Definition newcomers (seen : list string) (room : nat)
    (entries : list (prop_value * prop_value)) : list recommended :=
  map (counted entries) (take room (first_occurrences seen entries)).

(** Recipes that were emitted already: every further occurrence counts. *)
Definition credited (entries : list (prop_value * prop_value)) (r : recommended) : recommended :=
  {| id := id r; title := title r;
     recommendedUserCount := recommendedUserCount r + occurrences (key_of r) entries |}.

(** The list the design asks for: the first [count] distinct recipes in the
    order of their first occurrence, each with the number of its
    occurrences. *)
Definition two_tier (entries : list (prop_value * prop_value)) (count : Z) : list recommended :=
  newcomers [] (Z.to_nat count) entries.

Fixpoint index_of (k : string) (l : list recommended) : option nat :=
  match l with
  | [] => None
  | r :: l' => if decide (key_of r = k) then Some 0%nat else S <$> index_of k l'
  end.

(** What the loop keeps true: [recipes] lists every object of the heap once,
    in order, and [recipeHash] finds each of them by its key. *)
Definition consistent (st : recommending) : Prop :=
  recipes st = seq 0 (length (heap st)) /\
  NoDup (map key_of (heap st)) /\
  forall k, recipeHash st !! k = index_of k (heap st).

(** A path of the recommendation query: ingredient, recipe, edge, person. *)
Definition recommendation_path (name title : string) : row :=
  Path [EVertex {| v_id := 2; v_label := "ingredient";
                   v_properties := [("name", [PStr "basil"])] |};
        EVertex {| v_id := 4; v_label := "recipe";
                   v_properties := [("name", [PStr name]); ("title", [PStr title])] |};
        EEdge {| e_id := 5; e_label := "selects"; e_outV := 1; e_inV := 4;
                 e_properties := Some [("count", PNum 2)] |};
        EVertex {| v_id := 1; v_label := "person";
                   v_properties := [("name", [PStr "U1"])] |}].

(** The entry of the favourites list that a row gives: name and title of
    the recipe vertex. *)
Definition favorite_at (r : row) : option favorite :=
  match r with
  | Elem (EVertex v) =>
      match property_value v "name", property_value v "title" with
      | Resolved n, Resolved t => Some {| favorite_id := n; favorite_title := t |}
      | _, _ => None
      end
  | _ => None
  end.


(** A status-200 body with the given rows. *)
Definition body_200 (d : list row) : option response :=
  Some {| status := Some {| code := Some 200 |}; result := Some {| data := Some d |} |}.

(** *** Running the store against the in-memory service *)

(** The world after a statement was posted and the service moved to [g']. *)
Definition posted (w : @world GraphService.graph) (s : statement) (g' : GraphService.graph)
  : @world GraphService.graph :=
  {| service := g'; graphId := graphId w;
     requests := requests w ++ [OnGraph (bound_graph w) s] |}.

Definition response_200 (d : list row) : response :=
  {| status := Some {| code := Some 200 |}; result := Some {| data := Some d |} |}.

(** The vertices with a label and a text value under a key. *)
Definition named (l k v : string) (x : vertex) : bool :=
  String.eqb (v_label x) l
  && existsb (GraphService.is_text v) (default [] (js_get k (v_properties x))).

Definition stored (g : GraphService.graph) (l k v : string) : list vertex :=
  List.filter (named l k v) (GraphService.vertices g).

(** The lookups of the store. *)
Definition vertex_lookup (l k v : string) : statement :=
  Traverse [V_all; hasLabel l; has_eq k v].

Definition edge_lookup (o i : js_id) : statement :=
  Traverse [V_id o; outE; inV; hasId i; path].

(** The steps that every traverser takes on its own. *)
Definition pointwise (s : step) : bool :=
  match s with
  | order_by_decr _ | limit _ | V_all | V_id _ => false
  | _ => true
  end.

(** Identifiers are handed out in increasing order. *)
Definition fresh_ids (g : GraphService.graph) : Prop :=
  Forall (fun v => v_id v < GraphService.next_id g) (GraphService.vertices g) /\
  Forall (fun e => e_id e < GraphService.next_id g /\
                   e_outV e < GraphService.next_id g /\
                   e_inV e < GraphService.next_id g) (GraphService.edges g).

(** The graph after one vertex, one edge, or new properties of an edge. *)
Definition new_vertex (g : GraphService.graph) (object : vertex_object) : vertex :=
  {| v_id := GraphService.next_id g; v_label := vertex_label object;
     v_properties := map (fun kv => (fst kv, [snd kv])) (vertex_fields object) |}.

Definition with_vertex (g : GraphService.graph) (v : vertex) : GraphService.graph :=
  {| GraphService.vertices := GraphService.vertices g ++ [v];
     GraphService.edges := GraphService.edges g;
     GraphService.next_id := GraphService.next_id g + 1 |}.

Definition new_edge (g : GraphService.graph) (label : string) (o i : Z) (p : option props)
  : edge :=
  {| e_id := GraphService.next_id g; e_label := label; e_outV := o; e_inV := i;
     e_properties := GraphService.stored_properties (own_properties p) |}.

Definition with_edge (g : GraphService.graph) (e : edge) : GraphService.graph :=
  {| GraphService.vertices := GraphService.vertices g;
     GraphService.edges := GraphService.edges g ++ [e];
     GraphService.next_id := GraphService.next_id g + 1 |}.

Definition with_properties (g : GraphService.graph) (i : Z) (p : props) : GraphService.graph :=
  {| GraphService.vertices := GraphService.vertices g;
     GraphService.edges := map (GraphService.update_edge i p) (GraphService.edges g);
     GraphService.next_id := GraphService.next_id g |}.

(** The properties [addUpdateEdge] writes back for a found edge. *)
Definition incremented (p : option props) : props :=
  let properties := own_properties p in
  let count :=
    if truthy (js_get "count" properties)
    then default (PNum 0) (js_get "count" properties)
    else PNum 0 in
  js_set "count" (js_plus_one count) properties.

(** The count an edge carries; 0 when it carries none. *)
Definition edge_count (e : edge) : Z :=
  match js_get "count" (own_properties (e_properties e)) with
  | Some (PNum c) => c
  | _ => 0
  end.

(** [Number.isSafeInteger]: up to 2^53 - 1 in magnitude. *)
Definition safe_integer (n : Z) : Prop :=
  -9007199254740991 <= n <= 9007199254740991.

(** The weighted edge that the three [record...RequestForUser] methods
    hand to [addUpdateEdge]. *)
Definition weighted_edge (label : string) (o i : Z) : edge_object :=
  {| edge_label := label; edge_outV := Some o; edge_inV := Some i;
     edge_properties := Some [("count", PNum 1)] |}.

(** Recording the same edge [n] times, one call after the other. *)
Fixpoint record_times {S} (rp : script -> S -> rp_outcome * S) (n : nat) (edge : edge_object)
  : M unit :=
  match n with
  | O => ret tt
  | Datatypes.S n' => bind (addUpdateEdge rp edge) (fun _ => record_times rp n' edge)
  end.

(** The one edge from [o] to [i] that the recording of a weighted edge
    leaves in the graph, with its count. *)
Definition counted_edge (eid : Z) (label : string) (o i : Z) (c : Z) : edge :=
  {| e_id := eid; e_label := label; e_outV := o; e_inV := i;
     e_properties := Some [("count", PNum c)] |}.

(** A small graph: a person, an ingredient and a recipe, and a [has] edge
    from the recipe to the ingredient. *)
Definition pantry : GraphService.graph :=
  {| GraphService.vertices :=
       [{| v_id := 1; v_label := "person"; v_properties := [("name", [PStr "U1"])] |};
        {| v_id := 2; v_label := "ingredient"; v_properties := [("name", [PStr "basil"])] |};
        {| v_id := 3; v_label := "recipe";
           v_properties := [("name", [PStr "42"]); ("title", [PStr "Soup"])] |}];
     GraphService.edges :=
       [{| e_id := 4; e_label := "has"; e_outV := 3; e_inV := 2; e_properties := None |}];
     GraphService.next_id := 5 |}.

(** The same graph once the person has selected the ingredient 2^53
    times. *)
Definition brimful : GraphService.graph :=
  {| GraphService.vertices := GraphService.vertices pantry;
     GraphService.edges :=
       GraphService.edges pantry ++ [counted_edge 5 "selects" 1 2 9007199254740992];
     GraphService.next_id := 6 |}.


(** *** What the calls of [addRecipe] do to the graph *)

(** The vertex object that [addRecipe] builds. *)
Definition recipe_object (recipeId : prop_value) (recipeTitle recipeDetail : string)
  : vertex_object :=
  {| vertex_label := "recipe";
     vertex_fields := [("name", PStr (getUniqueRecipeName recipeId));
                       ("title", PStr (escape_apostrophes (trim recipeTitle)));
                       ("detail", PStr (escape_newlines (escape_apostrophes recipeDetail)))] |}.






(** *** Escaped values and canonical keys *)

(** The two characters that [escapeStringValue] guards. *)
Definition special (c : ascii) : bool := Ascii.eqb c dquote || Ascii.eqb c dollar.

(** Neither a double quote nor a dollar sign anywhere. *)
Fixpoint plain (s : string) : bool :=
  match s with
  | EmptyString => true
  | String c s' => negb (special c) && plain s'
  end.

(** Every double quote and every dollar sign of [s] stands directly after a
    backslash; [prev] is the character in front of [s]. *)
Fixpoint guarded_after (prev : ascii) (s : string) : bool :=
  match s with
  | EmptyString => true
  | String c s' => (negb (special c) || Ascii.eqb prev backslash) && guarded_after c s'
  end.

Definition guarded (s : string) : bool := guarded_after " "%char s.

(** A character that [trim] keeps and [toLowerCase] leaves alone. *)
Definition steady (c : ascii) : bool :=
  negb (isWhiteSpace c) && Ascii.eqb (toLowerChar c) c.

Fixpoint all_steady (s : string) : bool :=
  match s with
  | EmptyString => true
  | String c s' => steady c && all_steady s'
  end.

(** *** Answers of the service *)

(** An answer whose body carries the status code 200. *)
Definition answers_200 (o : rp_outcome) : bool :=
  match o with
  | RpBody (Some r) => ToBoolean (status_is_200 r)
  | _ => false
  end.

(** An answer that is a body with fields, whatever its status. *)
Definition answers_body (o : rp_outcome) : bool :=
  match o with
  | RpBody (Some _) => true
  | _ => false
  end.

(** *** Rows that the loops cannot read *)

(** A row of the recommendation query without a recipe name to read: not a
    path, a path with fewer than two objects, or a recipe vertex without a
    [name]. *)
Definition unreadable (p : row) : bool :=
  match p with
  | Elem _ => true
  | Path objects =>
      match objects !! 1%nat with
      | None => true
      | Some (EVertex v) =>
          match property_value v "name" with
          | Rejected _ => true
          | Resolved _ => false
          end
      | Some (EEdge _) => false
      end
  end.

(** Rows outside the wire contract of the two list queries, which the loops
    above refuse: an edge where the favourites query returns vertices, and a
    path whose second object is an edge. *)
Definition edge_row (r : row) : bool :=
  match r with
  | Elem (EEdge _) => true
  | _ => false
  end.

Definition edge_second (p : row) : bool :=
  match p with
  | Path objects =>
      match objects !! 1%nat with
      | Some (EEdge _) => true
      | _ => false
      end
  | Elem _ => false
  end.

(** What the loop keeps true besides [consistent]: the list never outgrows
    the limit, and every entry counts at least one user. *)
Definition within (count : Z) (st : recommending) : Prop :=
  (length (heap st) <= Z.to_nat count)%nat /\
  Forall (fun r => 1 <= recommendedUserCount r) (heap st).

(** *** The recommendation queries *)

(** [userVertex.properties.name[0].value], when it can be read. *)
Definition readable_name (userVertex : option row) : option prop_value :=
  match row_vertex userVertex with
  | Resolved v =>
      match property_value v "name" with
      | Resolved n => Some n
      | Rejected _ => None
      end
  | Rejected _ => None
  end.

(** The traversal of [findRecommendedRecipesForIngredient] and of
    [findRecommendedRecipesForCuisine]: from the vertex of the key to the
    recipes that have it, along the edges into them that count more than one
    request, to the persons at their tails other than the one who asks. *)
Definition recommendation_query (label key : string) (name : prop_value) : list step :=
  [V_all; hasLabel label; has_value "name" key;
   in_ "has";
   inE; has_gt "count" 1; order_by_decr "count";
   outV; hasLabel "person"; has_neq "name" (template (Some name));
   path].

(** *** Failed lookups and rows without an edge *)

(** How a query settles on an answer that does not carry the status 200. *)
Definition failure_of (o : rp_outcome) : error :=
  match o with
  | RpError => TransportError
  | RpBody None => TypeError
  | RpBody (Some _) => InvalidStatus
  end.

(** A first row of the edge lookup with nothing at [objects[1]]: not a path,
    or a path with fewer than two objects. *)
Definition edgeless (x : row) : bool :=
  match x with
  | Elem _ => true
  | Path objects =>
      match objects !! 1%nat with
      | None => true
      | Some _ => false
      end
  end.

(** The count that [addUpdateEdge] writes for an edge that carries [c]:
    a falsy count restarts at 1, a number gets 1 added as doubles are added,
    and [+ 1] on text appends the character. *)
Definition next_count (c : option prop_value) : prop_value :=
  match c with
  | None => PNum 1
  | Some (PNum n) => PNum (to_double (n + 1))
  | Some (PStr s) => if String.eqb s "" then PNum 1 else PStr (s +:+ "1")
  | Some (PBool b) => PNum (if b then 2 else 1)
  end.

(** *** What the store keeps true of the graph *)


(** At most one edge leads from one vertex to another. *)
Definition single_edges (g : GraphService.graph) : Prop :=
  forall o i, (length (GraphService.edges_between g o i) <= 1)%nat.

(** A call keeps [I] true of the graph behind the client, however it
    settles. *)
Definition preserves {A} (I : GraphService.graph -> Prop)
    (m : M (S := GraphService.graph) A) : Prop :=
  forall w, I (service w) -> I (service (snd (m w))).

(** *** Selecting an ingredient or a cuisine *)

(** The vertex object that [addIngredient] and [addCuisine] build. *)
Definition selection_object (label key detail : string) : vertex_object :=
  {| vertex_label := label;
     vertex_fields := [("name", PStr key); ("detail", PStr (escape_apostrophes detail))] |}.

(** What the two methods share: upsert the vertex of the key, then record the
    request of the user. *)
Definition add_selection {S} (rp : script -> S -> rp_outcome * S)
    (label key detail : string) (userVertex : option row) : M (option row) :=
  bind (addVertexIfNotExists rp (selection_object label key detail) "name")
    (fun vertex =>
       bind (recordIngredientRequestForUser rp vertex userVertex) (fun _ => ret vertex)).

(** *** Escaped vertex fields *)




(** *** Finding a vertex *)


(** * Properties *)

(** ** Escaping *)

Lemma append_cons (a : ascii) (x y : string) : String a x +:+ y = String a (x +:+ y).
Proof. reflexivity. Qed.

Lemma append_nil_l (y : string) : EmptyString +:+ y = y.
Proof. reflexivity. Qed.

Lemma append_assoc (x y z : string) : (x +:+ y) +:+ z = x +:+ (y +:+ z).
Proof. induction x as [|a x IH]; [reflexivity|]. rewrite !append_cons. now f_equal. Qed.

(** Both sides of an equation between script texts, as one run of
    characters and interpolated values. *)
Ltac text_normal :=
  unfold quoted;
  repeat (rewrite append_assoc || rewrite append_cons || rewrite append_nil_l).

Section Replace.

Variables (c : ascii) (r : string).

Lemma replaceAll1_append (x y : string) :
  replaceAll1 c r (x +:+ y) = replaceAll1 c r x +:+ replaceAll1 c r y.
Proof.
  induction x as [|a x IH]; [reflexivity|].
  rewrite append_cons. cbn [replaceAll1].
  destruct (Ascii.eqb a c); rewrite IH; [now rewrite append_assoc | reflexivity].
Qed.

End Replace.

Lemma replaceAll2_cons2 (c1 c2 : ascii) (r : string) (a b : ascii) (s : string) :
  replaceAll2 c1 c2 r (String a (String b s)) =
  if Ascii.eqb a c1 && Ascii.eqb b c2 then r +:+ replaceAll2 c1 c2 r s
  else String a (replaceAll2 c1 c2 r (String b s)).
Proof. reflexivity. Qed.

Lemma escape_scan_cons2 (a b : ascii) (s : string) :
  escape_scan (String a (String b s)) =
  if Ascii.eqb a backslash && Ascii.eqb b dquote
  then String backslash (String backslash (String backslash (String dquote (escape_scan s))))
  else if Ascii.eqb a dquote then String backslash (String dquote (escape_scan (String b s)))
  else if Ascii.eqb a dollar then String backslash (String dollar (escape_scan (String b s)))
  else String a (escape_scan (String b s)).
Proof. reflexivity. Qed.

Lemma escapeStringValue_cons_scan (s : string) :
  escapeStringValue s = escape_scan s /\
  forall a, escapeStringValue (String a s) = escape_scan (String a s).
Proof.
  induction s as [|b s [IH1 IH2]].
  - split; [reflexivity|]. intros a. unfold escapeStringValue.
    cbn [replaceAll2 replaceAll1 escape_scan].
    destruct (Ascii.eqb a dquote) eqn:Hq; [reflexivity|].
    cbn [replaceAll1]. destruct (Ascii.eqb a dollar); reflexivity.
  - split; [apply IH2|]. intros a.
    specialize (IH2 b). unfold escapeStringValue in *.
    rewrite replaceAll2_cons2, escape_scan_cons2.
    destruct (Ascii.eqb a backslash && Ascii.eqb b dquote) eqn:Hab.
    + rewrite !replaceAll1_append, IH1. reflexivity.
    + cbn [replaceAll1].
      destruct (Ascii.eqb a dquote) eqn:Hq.
      * rewrite replaceAll1_append, IH2. reflexivity.
      * cbn [replaceAll1]. destruct (Ascii.eqb a dollar) eqn:Hd.
        -- rewrite IH2. reflexivity.
        -- rewrite IH2. reflexivity.
Qed.

Lemma escape_scan_chars (s : string) :
  (has_escaped_quote s = false -> escape_scan s = escape_chars s) /\
  forall a, has_escaped_quote (String a s) = false ->
            escape_scan (String a s) = escape_chars (String a s).
Proof.
  induction s as [|b s [IH1 IH2]].
  - split; [reflexivity|]. intros a _. cbn [escape_scan escape_chars].
    destruct (Ascii.eqb a dquote); [reflexivity|]. destruct (Ascii.eqb a dollar); reflexivity.
  - split; [apply IH2|]. intros a H.
    cbn [has_escaped_quote] in H. apply orb_false_iff in H as [Hab H].
    specialize (IH2 b H).
    rewrite escape_scan_cons2, Hab.
    change (escape_chars (String a (String b s))) with
      (if Ascii.eqb a dquote then String backslash (String dquote (escape_chars (String b s)))
       else if Ascii.eqb a dollar then String backslash (String dollar (escape_chars (String b s)))
       else String a (escape_chars (String b s))).
    now rewrite IH2.
Qed.

(** C3, as the code has it.  The three substitutions of [escapeStringValue]
    amount to one scan in which a backslash followed by a double quote
    becomes three backslashes and the quote (the first substitution puts a
    second backslash in front of the pair, it does not leave it as it was), any
    other double quote becomes backslash-quote and a dollar sign becomes
    backslash-dollar; on a value without a backslash-quote pair the result is
    the value with each double quote and each dollar sign preceded by a
    backslash. *)
Theorem escapeStringValue_three_substitutions (value : string) :
  escapeStringValue value = escape_scan value /\
  (has_escaped_quote value = false -> escapeStringValue value = escape_chars value).
Proof.
  split.
  - apply escapeStringValue_cons_scan.
  - intros H. rewrite (proj1 (escapeStringValue_cons_scan value)).
    now apply escape_scan_chars.
Qed.

Lemma escapeStringValue_three_substitutions_witness :
  has_escaped_quote (String dquote "a$b") = false /\
  escapeStringValue (String dquote "a$b") = escape_chars (String dquote "a$b").
Proof.
  split; [reflexivity|].
  apply (proj2 (escapeStringValue_three_substitutions (String dquote "a$b"))).
  reflexivity.
Defined.

(** C3, as worded: with a first substitution that writes the escaped quote
    back unchanged, a backslash-quote pair would come out as two backslashes
    and a quote; the code gives three backslashes and a quote. *)
Lemma escapeStringValue_first_substitution_not_same_form :
  escapeStringValue (String backslash (String dquote EmptyString))
  <> escapeStringValue_same_form (String backslash (String dquote EmptyString))
  /\ escapeStringValue (String backslash (String dquote EmptyString))
     = String backslash (String backslash (String backslash (String dquote EmptyString)))
  /\ replaceAll2 backslash dquote
       (String backslash (String backslash (String dquote EmptyString)))
       (String backslash (String dquote EmptyString))
     <> String backslash (String dquote EmptyString).
Proof. repeat split; discriminate. Qed.

(** ** The canonical ingredient key *)

Lemma isWhiteSpace_toLowerChar (c : ascii) : isWhiteSpace (toLowerChar c) = isWhiteSpace c.
Proof. destruct c as [[] [] [] [] [] [] [] []]; reflexivity. Qed.

Lemma comma_toLowerChar (c : ascii) : Ascii.eqb (toLowerChar c) comma = Ascii.eqb c comma.
Proof. destruct c as [[] [] [] [] [] [] [] []]; reflexivity. Qed.

Lemma white_not_comma (c : ascii) : isWhiteSpace c = true -> Ascii.eqb c comma = false.
Proof. destruct c as [[] [] [] [] [] [] [] []]; (reflexivity || discriminate). Qed.

Lemma split_comma_cons (s : string) : exists h t, split_comma s = h :: t.
Proof.
  induction s as [|c s (h & t & IH)]; cbn [split_comma]; [eauto|].
  destruct (Ascii.eqb c comma); [eauto|]. rewrite IH. eauto.
Qed.

Lemma trimEnd_cons_black (c : ascii) (s : string) :
  isWhiteSpace c = false -> trimEnd (String c s) = String c (trimEnd s).
Proof. intros H. cbn [trimEnd]. rewrite H. now destruct (trimEnd s). Qed.

Lemma trimEnd_cons_white (c : ascii) (s : string) :
  isWhiteSpace c = true ->
  trimEnd (String c s) = match trimEnd s with EmptyString => EmptyString | r => String c r end.
Proof. intros H. cbn [trimEnd]. now rewrite H. Qed.

Lemma trim_cons_white (c : ascii) (s : string) :
  isWhiteSpace c = true -> trim (String c s) = trim s.
Proof.
  intros H. unfold trim. rewrite trimEnd_cons_white by assumption.
  destruct (trimEnd s) eqn:E; [reflexivity|]. cbn [trimStart]. now rewrite H.
Qed.

Lemma toLowerCase_append (x y : string) :
  toLowerCase (x +:+ y) = toLowerCase x +:+ toLowerCase y.
Proof. induction x as [|a x IH]; [reflexivity|]. rewrite append_cons. cbn. now rewrite IH. Qed.

Lemma trimStart_toLowerCase (s : string) : trimStart (toLowerCase s) = toLowerCase (trimStart s).
Proof.
  induction s as [|c s IH]; [reflexivity|]. cbn [toLowerCase trimStart].
  rewrite isWhiteSpace_toLowerChar. destruct (isWhiteSpace c); [apply IH | reflexivity].
Qed.

Lemma trimEnd_toLowerCase (s : string) : trimEnd (toLowerCase s) = toLowerCase (trimEnd s).
Proof.
  induction s as [|c s IH]; [reflexivity|]. cbn [toLowerCase trimEnd].
  rewrite IH, isWhiteSpace_toLowerChar.
  destruct (trimEnd s); cbn [toLowerCase]; [destruct (isWhiteSpace c)|]; reflexivity.
Qed.

Lemma trim_toLowerCase (s : string) : trim (toLowerCase s) = toLowerCase (trim s).
Proof. unfold trim. now rewrite trimEnd_toLowerCase, trimStart_toLowerCase. Qed.

Lemma split_comma_toLowerCase (s : string) :
  split_comma (toLowerCase s) = map toLowerCase (split_comma s).
Proof.
  induction s as [|c s IH]; [reflexivity|]. cbn [toLowerCase split_comma].
  rewrite comma_toLowerChar, IH.
  destruct (Ascii.eqb c comma); [reflexivity|].
  destruct (split_comma_cons s) as (h & t & E). rewrite E. reflexivity.
Qed.

(** Trimming the whole string first changes no trimmed piece. *)
Lemma split_comma_trimStart (s : string) :
  map trim (split_comma (trimStart s)) = map trim (split_comma s).
Proof.
  induction s as [|c s IH]; [reflexivity|]. cbn [trimStart].
  destruct (isWhiteSpace c) eqn:W; [|reflexivity].
  rewrite IH. cbn [split_comma]. rewrite (white_not_comma c W).
  destruct (split_comma_cons s) as (h & t & E). rewrite E. cbn [map].
  now rewrite trim_cons_white.
Qed.

Lemma split_comma_trimEnd (s : string) :
  map trimEnd (split_comma (trimEnd s)) = map trimEnd (split_comma s).
Proof.
  induction s as [|c s IH]; [reflexivity|].
  destruct (split_comma_cons s) as (h & t & E).
  destruct (split_comma_cons (trimEnd s)) as (h' & t' & E').
  rewrite E, E' in IH. cbn [map] in IH. injection IH as Hh Ht.
  destruct (isWhiteSpace c) eqn:W.
  - rewrite trimEnd_cons_white by assumption.
    cbn [split_comma]. rewrite (white_not_comma c W), E. cbn [map].
    rewrite (trimEnd_cons_white c h W).
    destruct (trimEnd s) eqn:T.
    + cbn in E'. injection E' as <- <-. cbn in Hh. rewrite <- Hh.
      destruct t; [reflexivity | discriminate].
    + rewrite <- T. cbn [split_comma]. rewrite (white_not_comma c W).
      rewrite T, E'. cbn [map]. rewrite (trimEnd_cons_white c h' W), Hh, Ht. reflexivity.
  - rewrite trimEnd_cons_black by assumption. cbn [split_comma].
    destruct (Ascii.eqb c comma).
    + rewrite E, E'. cbn [map]. now rewrite Hh, Ht.
    + rewrite E, E'. cbn [map]. rewrite !trimEnd_cons_black by assumption.
      now rewrite Hh, Ht.
Qed.

Lemma split_comma_trim (s : string) :
  map trim (split_comma (trim s)) = map trim (split_comma s).
Proof.
  unfold trim at 2. rewrite split_comma_trimStart.
  change (map trim) with (map (fun x => trimStart (trimEnd x))).
  rewrite <- !(map_map trimEnd trimStart). now rewrite split_comma_trimEnd.
Qed.

(** The pipeline without the first [trim]: lower-case, split, trim each
    piece, sort, join. *)
Lemma getUniqueIngredientsName_pipeline (s : string) :
  getUniqueIngredientsName s =
  join_comma (sort (map trim (split_comma (toLowerCase s)))).
Proof.
  unfold getUniqueIngredientsName.
  now rewrite <- trim_toLowerCase, split_comma_trim.
Qed.

Lemma trimStart_white_append (l x : string) :
  all_white l = true -> trimStart (l +:+ x) = trimStart x.
Proof.
  induction l as [|a l IH]; [reflexivity|]. cbn [all_white]. intros [Ha Hl]%andb_true_iff.
  rewrite append_cons. cbn [trimStart]. rewrite Ha. auto.
Qed.

Lemma trimEnd_white (r : string) : all_white r = true -> trimEnd r = EmptyString.
Proof.
  induction r as [|a r IH]; [reflexivity|]. cbn [all_white]. intros [Ha Hr]%andb_true_iff.
  rewrite trimEnd_cons_white, IH by assumption. reflexivity.
Qed.

Lemma trimEnd_append_white (x r : string) :
  all_white r = true -> trimEnd (x +:+ r) = trimEnd x.
Proof.
  intros Hr. induction x as [|a x IH]; [now apply trimEnd_white|].
  rewrite append_cons. cbn [trimEnd]. now rewrite IH.
Qed.

Lemma trim_white_append (l x : string) : all_white l = true -> trim (l +:+ x) = trim x.
Proof.
  induction l as [|a l IH]; [reflexivity|]. cbn [all_white]. intros [Ha Hl]%andb_true_iff.
  rewrite append_cons, trim_cons_white by assumption. auto.
Qed.

Lemma trim_padded (l c r : string) :
  all_white l = true -> all_white r = true -> trim (l +:+ c +:+ r) = trim c.
Proof.
  intros Hl Hr. rewrite trim_white_append by assumption.
  unfold trim. now rewrite trimEnd_append_white.
Qed.

Lemma same_ingredient_key (e e' : string) :
  same_ingredient e e' -> trim (toLowerCase e) = trim (toLowerCase e').
Proof.
  intros (l & c & r & l' & c' & r' & -> & -> & Hl & Hr & Hl' & Hr' & Hc).
  now rewrite !trim_toLowerCase, !trim_padded, <- !trim_toLowerCase, Hc.
Qed.

Lemma split_comma_no_comma (x : string) : has_comma x = false -> split_comma x = [x].
Proof.
  induction x as [|a x IH]; [reflexivity|]. cbn [has_comma split_comma].
  intros [Ha Hx]%orb_false_iff. now rewrite Ha, IH.
Qed.

Lemma split_comma_append (x y : string) :
  has_comma x = false ->
  split_comma (x +:+ String comma y) = x :: split_comma y.
Proof.
  induction x as [|a x IH]; [reflexivity|]. cbn [has_comma].
  intros [Ha Hx]%orb_false_iff. rewrite append_cons. cbn [split_comma].
  now rewrite Ha, IH.
Qed.

Lemma split_comma_join_comma (x : string) (xs : list string) :
  Forall (fun e => has_comma e = false) (x :: xs) ->
  split_comma (join_comma (x :: xs)) = x :: xs.
Proof.
  revert x. induction xs as [|y xs IH]; intros x H.
  - apply split_comma_no_comma. now inversion H.
  - change (join_comma (x :: y :: xs)) with (x +:+ String comma (join_comma (y :: xs))).
    inversion H; subst. now rewrite split_comma_append, IH.
Qed.

(** *** Sorting *)

#[local] Instance string_le_trans : Transitive string_le.
Proof.
  unfold string_le, String.leb. intros x.
  induction x as [|a x IH]; intros [|b y] [|c z]; cbn [String.compare];
    intros H1 H2; try reflexivity; try discriminate.
  unfold Ascii.compare in *.
  destruct (N.compare_spec (N_of_ascii a) (N_of_ascii b)) as [Hab|Hab|Hab];
    try discriminate;
    destruct (N.compare_spec (N_of_ascii b) (N_of_ascii c)) as [Hbc|Hbc|Hbc];
    try discriminate.
  - rewrite Hab, Hbc, N.compare_refl. now apply (IH y z).
  - rewrite Hab. now apply N.compare_lt_iff in Hbc as ->.
  - rewrite <- Hbc. now apply N.compare_lt_iff in Hab as ->.
  - assert (H : (N_of_ascii a ?= N_of_ascii c)%N = Lt) by (apply N.compare_lt_iff; lia).
    now rewrite H.
Qed.

#[local] Instance string_le_antisym : AntiSymm (=) string_le.
Proof. intros x y. apply String.leb_antisym. Qed.

Lemma insert_sorted_Permutation (x : string) (l : list string) :
  Permutation (insert_sorted x l) (x :: l).
Proof.
  induction l as [|y l IH]; cbn [insert_sorted]; [reflexivity|].
  destruct (String.leb x y); [reflexivity|].
  rewrite IH. apply perm_swap.
Qed.

Lemma sort_Permutation (l : list string) : Permutation (sort l) l.
Proof.
  induction l as [|x l IH]; cbn [sort]; [reflexivity|].
  now rewrite insert_sorted_Permutation, IH.
Qed.

Lemma insert_sorted_Sorted (x : string) (l : list string) :
  Sorted string_le l -> Sorted string_le (insert_sorted x l).
Proof.
  induction 1 as [|y l Hl IH Hd]; cbn [insert_sorted].
  - repeat constructor.
  - destruct (String.leb x y) eqn:E.
    + constructor; [now constructor | now constructor].
    + constructor; [exact IH|].
      assert (Hyx : string_le y x).
      { destruct (String.leb_total x y) as [H|H]; [congruence | exact H]. }
      destruct l as [|z l]; cbn [insert_sorted]; [now constructor|].
      destruct (String.leb x z); constructor; [exact Hyx | now inversion Hd].
Qed.

Lemma sort_Sorted (l : list string) : Sorted string_le (sort l).
Proof.
  induction l as [|x l IH]; cbn [sort]; [constructor | now apply insert_sorted_Sorted].
Qed.

Lemma sort_Permutation_eq (l l' : list string) : Permutation l l' -> sort l = sort l'.
Proof.
  intros H. apply (Sorted_unique string_le); try apply sort_Sorted.
  now rewrite !sort_Permutation.
Qed.

Lemma same_ingredients_keys (xs ys : list string) :
  same_ingredients xs ys ->
  Permutation (map (fun e => trim (toLowerCase e)) xs)
              (map (fun e => trim (toLowerCase e)) ys).
Proof.
  intros (zs & Hp & Hf). rewrite Hp. clear Hp.
  induction Hf as [|z y zs ys Hzy _ IH]; cbn [map]; [reflexivity|].
  rewrite (same_ingredient_key _ _ Hzy). now constructor.
Qed.

Lemma getUniqueIngredientsName_join_comma (xs : list string) :
  Forall (fun e => has_comma e = false) xs ->
  getUniqueIngredientsName (join_comma xs) =
  join_comma (sort (map (fun e => trim (toLowerCase e))
                      (match xs with [] => [EmptyString] | _ => xs end))).
Proof.
  intros H. rewrite getUniqueIngredientsName_pipeline, split_comma_toLowerCase, map_map.
  destruct xs as [|x xs]; [reflexivity|]. now rewrite split_comma_join_comma.
Qed.

(** C2.  Two comma-separated lists that name the same ingredients, whatever
    the order of the elements, the case of their letters and the white space
    around each element, get the same key; the key is the lower-cased input
    split on commas, each piece trimmed, the pieces sorted and joined with
    commas, so that "Tomato, Onion" and "onion,tomato" both give
    "onion,tomato". *)
Theorem getUniqueIngredientsName_canonical (xs ys : list string) :
  Forall (fun e => has_comma e = false) xs ->
  Forall (fun e => has_comma e = false) ys ->
  same_ingredients xs ys ->
  getUniqueIngredientsName (join_comma xs) = getUniqueIngredientsName (join_comma ys)
  /\ getUniqueIngredientsName (join_comma xs) =
     join_comma (sort (map trim (split_comma (toLowerCase (join_comma xs)))))
  /\ getUniqueIngredientsName "Tomato, Onion" = "onion,tomato"
  /\ getUniqueIngredientsName "onion,tomato" = "onion,tomato".
Proof.
  intros Hx Hy H. split; [|split; [apply getUniqueIngredientsName_pipeline | split; reflexivity]].
  rewrite !getUniqueIngredientsName_join_comma by assumption.
  f_equal. apply sort_Permutation_eq.
  pose proof (same_ingredients_keys _ _ H) as Hp.
  destruct xs as [|x xs], ys as [|y ys]; try exact Hp; try reflexivity.
  - apply Permutation_nil in Hp. discriminate.
  - symmetry in Hp. apply Permutation_nil in Hp. discriminate.
Qed.

Lemma getUniqueIngredientsName_canonical_witness :
  Forall (fun e => has_comma e = false) ["Tomato"; " Onion "] /\
  Forall (fun e => has_comma e = false) ["onion"; "  TOMATO"] /\
  same_ingredients ["Tomato"; " Onion "] ["onion"; "  TOMATO"] /\
  getUniqueIngredientsName "Tomato, Onion " = getUniqueIngredientsName "onion,  TOMATO".
Proof.
  assert (H1 : Forall (fun e => has_comma e = false) ["Tomato"; " Onion "])
    by (repeat constructor).
  assert (H2 : Forall (fun e => has_comma e = false) ["onion"; "  TOMATO"])
    by (repeat constructor).
  assert (H3 : same_ingredients ["Tomato"; " Onion "] ["onion"; "  TOMATO"]).
  { exists [" Onion "; "Tomato"]. split; [apply perm_swap|].
    repeat constructor.
    - exists " ", "Onion", " ", "", "onion", "". repeat split; reflexivity.
    - exists "", "Tomato", "", "  ", "TOMATO", "". repeat split; reflexivity. }
  split; [exact H1|]. split; [exact H2|]. split; [exact H3|].
  exact (proj1 (getUniqueIngredientsName_canonical _ _ H1 H2 H3)).
Defined.

(** ** The client *)

Section ClientFacts.

Context {S : Type} (rp : script -> S -> rp_outcome * S).

Lemma post_spec (s : script) (w : world) :
  post rp s w =
  (match answer rp s w with
   | RpError => Rejected TransportError
   | RpBody b => Resolved b
   end, after rp s w).
Proof.
  unfold post, answer, after. destruct (rp s (service w)) as [[|b] sv]; reflexivity.
Qed.

Lemma runGremlinQuery_spec (q : statement) (w : world) :
  runGremlinQuery rp q w =
  (match answer rp (OnGraph (bound_graph w) q) w with
   | RpError => Rejected TransportError
   | RpBody None => Rejected TypeError
   | RpBody (Some r) =>
       if ToBoolean (status_is_200 r) then Resolved r else Rejected InvalidStatus
   end, after rp (OnGraph (bound_graph w) q) w).
Proof.
  unfold runGremlinQuery, bind. rewrite post_spec.
  destruct (answer rp _ w) as [|[r|]]; try reflexivity.
  destruct (ToBoolean (status_is_200 r)); reflexivity.
Qed.

Lemma ok_without_rows_inv (o : rp_outcome) :
  ok_without_rows o ->
  exists r, o = RpBody (Some r) /\ ToBoolean (status_is_200 r) = true /\ rows r = [].
Proof.
  intros (r & st & -> & Hs & Hc & Hr). exists r. split; [reflexivity|]. split.
  - unfold status_is_200. now rewrite Hs, Hc.
  - unfold rows. destruct Hr as [-> | [-> | ->]]; reflexivity.
Qed.

Lemma runGremlinQuery_ok_without_rows (q : statement) (w : world) :
  ok_without_rows (answer rp (OnGraph (bound_graph w) q) w) ->
  exists r, runGremlinQuery rp q w = (Resolved r, after rp (OnGraph (bound_graph w) q) w)
            /\ rows r = [].
Proof.
  intros (r & Ha & Hs & Hr)%ok_without_rows_inv. exists r. split; [|exact Hr].
  now rewrite runGremlinQuery_spec, Ha, Hs.
Qed.

End ClientFacts.

(** C4, as the code has it.  [graphExists] never rejects.  It resolves to
    [true] exactly when the body carries a status whose code is 200.  It
    resolves to [false] when the request fails, when reading the body throws
    and when the code is a number other than 0 and 200; when the status or
    its code is missing it resolves to [undefined], and to [0] when the code is
    0: the first falsy operand of the conjunction.  Every value other than
    [true] is falsy. *)
Theorem graphExists_resolves {S} (rp : script -> S -> rp_outcome * S) (id : string) (w : world) :
  exists v,
    graphExists rp id w = (Resolved v, after rp (OpenGraph id) w) /\
    (v = JBool true <->
       exists r st, answer rp (OpenGraph id) w = RpBody (Some r) /\
                    status r = Some st /\ code st = Some 200) /\
    (v <> JBool true -> ToBoolean v = false) /\
    (answer rp (OpenGraph id) w = RpError -> v = JBool false) /\
    (answer rp (OpenGraph id) w = RpBody None -> v = JBool false) /\
    (forall r, answer rp (OpenGraph id) w = RpBody (Some r) ->
       match status r with
       | None => v = JUndefined
       | Some st =>
           match code st with
           | None => v = JUndefined
           | Some c => v = if c =? 0 then JNum 0 else JBool (c =? 200)
           end
       end).
Proof.
  unfold graphExists, catch, bind. rewrite post_spec.
  destruct (answer rp (OpenGraph id) w) as [|[r|]] eqn:Ha; cbn.
  - exists (JBool false). split; [reflexivity|]. split.
    { split; [discriminate | intros (r & st & H & _); discriminate]. }
    repeat split; congruence.
  - exists (status_is_200 r). unfold status_is_200.
    split; [reflexivity|]. split; [|split; [|split; [|split]]]; try congruence.
    + split.
      * destruct (status r) as [st|] eqn:Hs; [|discriminate].
        destruct (code st) as [c|] eqn:Hc; [|discriminate].
        destruct (c =? 0) eqn:H0; [discriminate|].
        intros [= H]. apply Z.eqb_eq in H. subst c. eauto.
      * intros (r' & st & [= <-] & -> & ->). reflexivity.
    + destruct (status r) as [st|]; [|reflexivity].
      destruct (code st) as [c|]; [|reflexivity].
      destruct (c =? 0); [reflexivity|]. destruct (c =? 200); [congruence | reflexivity].
    + intros r' [= <-]. destruct (status r) as [st|]; [|reflexivity].
      destruct (code st) as [c|]; reflexivity.
  - exists (JBool false). split; [reflexivity|]. split.
    { split; [discriminate | intros (r & st & H & _); discriminate]. }
    repeat split; congruence.
Qed.

(** C4, as worded: a body without a status makes [graphExists] resolve to
    [undefined], not to [false]. *)
Lemma graphExists_absent_status_resolves_undefined :
  fst (graphExists (constant_service (Some {| status := None; result := None |}))
         "recipebot" unbound) = Resolved JUndefined
  /\ fst (graphExists (constant_service (Some {| status := None; result := None |}))
            "recipebot" unbound) <> Resolved (JBool false).
Proof. split; [reflexivity | discriminate]. Qed.

(** C5.  A status-200 answer without rows is not an error: [findVertex]
    resolves to [null], and so do [createVertex] and [createEdge] when the
    echo of the created element is missing. *)
Theorem no_rows_resolve_null {S} (rp : script -> S -> rp_outcome * S) (w : world) :
  (forall label propertyName propertyValue,
     ok_without_rows
       (answer rp (OnGraph (bound_graph w)
                     (Traverse [V_all; hasLabel label; has_eq propertyName propertyValue])) w) ->
     fst (findVertex rp label propertyName propertyValue w) = Resolved None) /\
  (forall vertex,
     ok_without_rows
       (answer rp (OnGraph (bound_graph w)
                     (AddVertex (vertex_label vertex) (vertex_fields vertex))) w) ->
     fst (createVertex rp vertex w) = Resolved None) /\
  (forall label outV inV properties,
     ok_without_rows
       (answer rp (OnGraph (bound_graph w)
                     (AddEdge label outV inV (own_properties properties))) w) ->
     fst (createEdge rp label outV inV properties w) = Resolved None).
Proof.
  repeat split; intros.
  - destruct (runGremlinQuery_ok_without_rows rp _ w H) as (r & Hq & Hr).
    unfold findVertex, bind. rewrite Hq. unfold ret, first_row_or_null. now rewrite Hr.
  - destruct (runGremlinQuery_ok_without_rows rp _ w H) as (r & Hq & Hr).
    unfold createVertex, bind. rewrite Hq. unfold ret, first_row_or_null. now rewrite Hr.
  - destruct (runGremlinQuery_ok_without_rows rp _ w H) as (r & Hq & Hr).
    unfold createEdge, bind. rewrite Hq. unfold ret, first_row_or_null. now rewrite Hr.
Qed.

Lemma no_rows_resolve_null_witness :
  ok_without_rows
    (answer (constant_service (Some {| status := Some {| code := Some 200 |}; result := None |}))
       (OnGraph (bound_graph unbound)
          (Traverse [V_all; hasLabel "recipe"; has_eq "name" "42"])) unbound) /\
  fst (findVertex
         (constant_service (Some {| status := Some {| code := Some 200 |}; result := None |}))
         "recipe" "name" "42" unbound) = Resolved None.
Proof.
  assert (H : ok_without_rows
    (answer (constant_service (Some {| status := Some {| code := Some 200 |}; result := None |}))
       (OnGraph (bound_graph unbound)
          (Traverse [V_all; hasLabel "recipe"; has_eq "name" "42"])) unbound)).
  { eexists _, _. split; [reflexivity|]. split; [reflexivity|]. split; [reflexivity|].
    now left. }
  split; [exact H|].
  exact (proj1 (no_rows_resolve_null _ unbound) "recipe" "name" "42" H).
Defined.

(** ** The recommendation list *)

Lemma occurrences_cons (k : string) (nt : prop_value * prop_value) entries :
  occurrences k (nt :: entries) =
  (if decide (recipe_key nt = k) then 1 else 0) + occurrences k entries.
Proof.
  unfold occurrences. rewrite filter_cons.
  destruct (decide (recipe_key nt = k)); cbn [length]; lia.
Qed.

Lemma first_occurrences_fresh seen entries nt :
  nt ∈ first_occurrences seen entries -> recipe_key nt ∉ seen.
Proof.
  revert seen. induction entries as [|x entries IH]; intros seen; cbn [first_occurrences].
  - intros H. inversion H.
  - destruct (decide (recipe_key x ∈ seen)) as [Hin|Hout].
    + apply IH.
    + intros [->|H]%elem_of_cons; [exact Hout|].
      apply IH in H. intros Hs. apply H. apply elem_of_app. now left.
Qed.

Lemma newcomers_skip seen room x entries :
  recipe_key x ∈ seen ->
  newcomers seen room (x :: entries) = newcomers seen room entries.
Proof.
  intros Hin. unfold newcomers. cbn [first_occurrences].
  destruct (decide (recipe_key x ∈ seen)) as [_|?]; [|contradiction].
  apply map_ext_in. intros nt Hnt. unfold counted. f_equal.
  rewrite occurrences_cons. destruct (decide (recipe_key x = recipe_key nt)) as [E|]; [|lia].
  exfalso. apply list_elem_of_In, subseteq_take, first_occurrences_fresh in Hnt.
  apply Hnt. now rewrite <- E.
Qed.

Lemma newcomers_enter seen room x entries :
  recipe_key x ∉ seen ->
  newcomers seen (S room) (x :: entries) =
  credited entries (emitted x) :: newcomers (seen ++ [recipe_key x]) room entries.
Proof.
  intros Hout. unfold newcomers. cbn [first_occurrences].
  destruct (decide (recipe_key x ∈ seen)) as [?|_]; [contradiction|].
  cbn [take map]. f_equal.
  - unfold counted, credited, emitted, key_of. cbn [id title recommendedUserCount].
    f_equal. rewrite occurrences_cons. unfold recipe_key.
    destruct (decide (template (Some x.1) = template (Some x.1))); [reflexivity | congruence].
  - apply map_ext_in. intros nt Hnt. unfold counted. f_equal.
    rewrite occurrences_cons. destruct (decide (recipe_key x = recipe_key nt)) as [E|]; [|lia].
    exfalso. apply list_elem_of_In, subseteq_take, first_occurrences_fresh in Hnt.
    apply Hnt. apply elem_of_app. right. rewrite E. apply list_elem_of_singleton. reflexivity.
Qed.

Lemma newcomers_nil seen room : newcomers seen room [] = [].
Proof. unfold newcomers. cbn [first_occurrences]. now rewrite take_nil. Qed.

Lemma index_of_None k l : index_of k l = None <-> k ∉ map key_of l.
Proof.
  induction l as [|r l IH]; cbn [index_of map].
  - split; [intros _ H; inversion H | reflexivity].
  - destruct (decide (key_of r = k)) as [E|N].
    + split; [discriminate|]. intros H. exfalso. apply H. rewrite E. apply list_elem_of_here.
    + rewrite fmap_None, IH, not_elem_of_cons. split; [intros H; split; [congruence | exact H] | intros [_ H]; exact H].
Qed.

Lemma index_of_app k l r :
  index_of k (l ++ [r]) =
  match index_of k l with
  | Some i => Some i
  | None => if decide (key_of r = k) then Some (length l) else None
  end.
Proof.
  induction l as [|r' l IH]; cbn [index_of app length].
  - destruct (decide (key_of r = k)); reflexivity.
  - destruct (decide (key_of r' = k)); [reflexivity|]. rewrite IH.
    destruct (index_of k l); [reflexivity|]. destruct (decide (key_of r = k)); reflexivity.
Qed.

Lemma key_of_increment r : key_of (increment r) = key_of r.
Proof. reflexivity. Qed.

Lemma keys_alter_increment i l : map key_of (alter increment i l) = map key_of l.
Proof.
  revert i. induction l as [|r l IH]; intros [|i]; cbn; try reflexivity. now rewrite IH.
Qed.

Lemma index_of_alter_increment k i l : index_of k (alter increment i l) = index_of k l.
Proof.
  revert i. induction l as [|r l IH]; intros [|i]; try reflexivity.
  change (alter increment (S i) (r :: l)) with (r :: alter increment i l).
  cbn [index_of]. now rewrite IH.
Qed.

Lemma credited_other x entries l :
  recipe_key x ∉ map key_of l ->
  map (credited (x :: entries)) l = map (credited entries) l.
Proof.
  intros H. apply map_ext_in. intros r Hr. unfold credited. f_equal.
  rewrite occurrences_cons. destruct (decide (recipe_key x = key_of r)) as [E|]; [|lia].
  exfalso. apply H. rewrite E. apply list_elem_of_In, in_map, Hr.
Qed.

Lemma credited_found x entries l i :
  NoDup (map key_of l) ->
  index_of (recipe_key x) l = Some i ->
  map (credited (x :: entries)) l = map (credited entries) (alter increment i l).
Proof.
  revert i. induction l as [|r l IH]; intros i Hnd Hi; [discriminate|].
  cbn [map] in Hnd. apply NoDup_cons in Hnd as [Hr Hnd].
  cbn [index_of] in Hi. destruct (decide (key_of r = recipe_key x)) as [E|N].
  - injection Hi as <-. change (alter increment 0%nat (r :: l)) with (increment r :: l).
    cbn [map]. f_equal.
    + unfold credited. rewrite key_of_increment.
      unfold increment. cbn [id title recommendedUserCount]. f_equal.
      rewrite occurrences_cons.
      destruct (decide (recipe_key x = key_of r)); [lia | congruence].
    + apply credited_other. now rewrite <- E.
  - destruct (index_of (recipe_key x) l) as [j|] eqn:Hj; [|discriminate].
    injection Hi as <-. change (alter increment (S j) (r :: l)) with (r :: alter increment j l).
    cbn [map]. f_equal; [|now apply IH].
    unfold credited. f_equal. rewrite occurrences_cons.
    destruct (decide (recipe_key x = key_of r)); [congruence | lia].
Qed.


Lemma omap_lookup_seq {A} (pre l : list A) :
  omap (fun i => (pre ++ l) !! i) (seq (length pre) (length l)) = l.
Proof.
  revert pre. induction l as [|x l IH]; intros pre; [reflexivity|].
  cbn [length seq]. cbn. rewrite list_lookup_middle by reflexivity. f_equal.
  specialize (IH (pre ++ [x])). rewrite <- app_assoc, length_app in IH. cbn [length app] in IH.
  rewrite Nat.add_1_r in IH. exact IH.
Qed.

Lemma recipes_of_consistent st : consistent st -> recipes_of st = heap st.
Proof. intros (Hr & _). unfold recipes_of. rewrite Hr. apply (omap_lookup_seq []). Qed.

Lemma credited_nil l : map (credited []) l = l.
Proof.
  rewrite <- (map_id l) at 2. apply map_ext. intros [i t c]. unfold credited, occurrences.
  cbn. f_equal. lia.
Qed.

Lemma consistent_start : consistent recommend_start.
Proof. split; [reflexivity|]. split; [constructor|]. intros k. apply lookup_empty. Qed.

Lemma consistent_increment st i :
  consistent st ->
  consistent {| heap := alter increment i (heap st); recipes := recipes st;
                recipeHash := recipeHash st |}.
Proof.
  intros (Hr & Hn & Hh). unfold consistent. cbn [heap recipes recipeHash].
  rewrite length_alter, keys_alter_increment. split; [exact Hr|]. split; [exact Hn|].
  intros k. now rewrite index_of_alter_increment.
Qed.

Lemma consistent_push st nt :
  consistent st ->
  index_of (recipe_key nt) (heap st) = None ->
  consistent {| heap := heap st ++ [emitted nt];
                recipes := recipes st ++ [length (heap st)];
                recipeHash := <[recipe_key nt := length (heap st)]> (recipeHash st) |}.
Proof.
  intros (Hr & Hn & Hh) Hk. unfold consistent. cbn [heap recipes recipeHash].
  split; [|split].
  - rewrite length_app, Nat.add_comm. cbn [length Nat.add]. rewrite seq_S. cbn [Nat.add].
    now rewrite Hr.
  - rewrite map_app. cbn [map]. apply NoDup_app. split; [exact Hn|]. split.
    + intros k Hin [->|H]%elem_of_cons; [|inversion H].
      apply index_of_None in Hk. now apply Hk.
    + apply NoDup_singleton.
  - intros k. rewrite index_of_app, <- Hh.
    change (key_of (emitted nt)) with (recipe_key nt).
    destruct (decide (recipe_key nt = k)) as [<-|N].
    + rewrite lookup_insert_eq. now rewrite Hh, Hk.
    + rewrite lookup_insert_ne by exact N. now destruct (recipeHash st !! k).
Qed.

Lemma recipe_at_Some p n t :
  recipe_at p = Some (n, t) ->
  exists v, path_vertex p = Resolved v /\
            property_value v "name" = Resolved n /\ property_value v "title" = Resolved t.
Proof.
  unfold recipe_at. destruct (path_vertex p) as [v|]; [|discriminate].
  destruct (property_value v "name") as [n'|] eqn:Hn; [|discriminate].
  destruct (property_value v "title") as [t'|] eqn:Ht; [|discriminate].
  intros [= <- <-]. exists v. auto.
Qed.

(** The loop on paths that all carry a recipe whose key is not a name that
    an object literal inherits. *)
Lemma recommend_loop_closed (count : Z) (paths : list row) :
  forall entries st,
    Forall2 (fun p nt => recipe_at p = Some nt) paths entries ->
    Forall (fun nt => recipe_key nt ∉ object_prototype_keys) entries ->
    consistent st ->
    exists st',
      recommend_loop count st paths = Resolved st' /\ consistent st' /\
      heap st' =
        map (credited entries) (heap st)
        ++ newcomers (map key_of (heap st)) (Z.to_nat count - length (heap st)) entries.
Proof.
  induction paths as [|p paths IH]; intros entries st Hw Hp Hc.
  - inversion Hw; subst. exists st. split; [reflexivity|]. split; [exact Hc|].
    now rewrite credited_nil, newcomers_nil, app_nil_r.
  - inversion Hw as [|? [n t] ? entries' Hat Hw']; subst.
    apply Forall_cons in Hp as [Hk Hp].
    destruct (recipe_at_Some _ _ _ Hat) as (v & Hv & Hn & Ht).
    pose proof Hc as (Hr & Hnd & Hh).
    cbn [recommend_loop]. unfold recommend_step. rewrite Hv, Hn.
    unfold hash_get. rewrite Hh.
    change (template (Some n)) with (recipe_key (n, t)).
    destruct (index_of (recipe_key (n, t)) (heap st)) as [i|] eqn:Hi.
    + destruct (IH entries' _ Hw' Hp (consistent_increment st i Hc)) as (st' & Hl & Hc' & Hheap).
      exists st'. split; [exact Hl|]. split; [exact Hc'|].
      rewrite Hheap. cbn [heap]. rewrite length_alter, keys_alter_increment.
      rewrite <- (credited_found _ _ _ _ Hnd Hi). f_equal.
      symmetry. apply newcomers_skip.
      destruct (decide (recipe_key (n, t) ∈ map key_of (heap st))) as [Hin|Hout]; [exact Hin|].
      apply index_of_None in Hout. congruence.
    + rewrite bool_decide_eq_false_2 by exact Hk.
      assert (Hlen : length (recipes st) = length (heap st)) by (now rewrite Hr, length_seq).
      pose proof Hi as Hout. apply index_of_None in Hout.
      rewrite Z.geb_leb. destruct (count <=? Z.of_nat (length (recipes st))) eqn:Hfull.
      * apply Z.leb_le in Hfull.
        destruct (IH entries' st Hw' Hp Hc) as (st' & Hl & Hc' & Hheap).
        exists st'. split; [exact Hl|]. split; [exact Hc'|].
        rewrite Hheap, (credited_other _ _ _ Hout).
        replace (Z.to_nat count - length (heap st))%nat with 0%nat by lia.
        reflexivity.
      * apply Z.leb_gt in Hfull. rewrite Ht.
        destruct (IH entries' _ Hw' Hp (consistent_push st (n, t) Hc Hi))
          as (st' & Hl & Hc' & Hheap).
        exists st'. split; [exact Hl|]. split; [exact Hc'|].
        rewrite Hheap. cbn [heap]. rewrite !map_app, length_app. cbn [map length].
        rewrite <- app_assoc. cbn [app].
        rewrite (credited_other _ _ _ Hout).
        replace (Z.to_nat count - length (heap st))%nat
          with (S (Z.to_nat count - (length (heap st) + 1)))%nat by lia.
        now rewrite (newcomers_enter _ _ _ _ Hout).
Qed.

(** The two-tier rule, for paths whose recipe keys are not inherited names:
    the list holds the first [count] distinct recipes in the order of their
    first occurrence, and each one counts all its occurrences, also those
    after the list became full. *)
Lemma recommended_recipes_two_tier (paths : list row) (count : Z) entries :
  Forall2 (fun p nt => recipe_at p = Some nt) paths entries ->
  Forall (fun nt => recipe_key nt ∉ object_prototype_keys) entries ->
  recommended_recipes paths count = Resolved (two_tier entries count).
Proof.
  intros Hw Hp.
  destruct (recommend_loop_closed count paths entries _ Hw Hp consistent_start)
    as (st' & Hl & Hc & Hheap).
  unfold recommended_recipes. rewrite Hl, (recipes_of_consistent _ Hc), Hheap.
  cbn [heap recommend_start map app length]. now rewrite Nat.sub_0_r.
Qed.

Lemma two_tier_length entries count :
  length (two_tier entries count)
  = Nat.min (Z.to_nat count) (length (first_occurrences [] entries)).
Proof. unfold two_tier, newcomers. now rewrite length_map, length_take. Qed.

(** C1, where the code departs from it.  One path arrives through a recipe
    named [constructor] and the limit is 1.  The design emits that recipe with
    a count of 1 (the list [two_tier]); the code finds the name in
    [recipeHash], because an object literal inherits it, takes the path for a
    later occurrence and resolves to an empty list.  For keys that are not
    inherited names the code follows the design: [recommended_recipes_two_tier]. *)
Theorem getRecommendedRecipes_inherited_key :
  recipe_at (recommendation_path "constructor" "Object Pie")
  = Some (PStr "constructor", PStr "Object Pie")
  /\ two_tier [(PStr "constructor", PStr "Object Pie")] 1
     = [{| id := PStr "constructor"; title := PStr "Object Pie"; recommendedUserCount := 1 |}]
  /\ recommended_recipes [recommendation_path "constructor" "Object Pie"] 1 = Resolved []
  /\ fst (getRecommendedRecipes
            (constant_service (body_200 [recommendation_path "constructor" "Object Pie"]))
            [V_all; hasLabel "ingredient"; has_value "name" "basil"; in_ "has";
             inE; has_gt "count" 1; order_by_decr "count";
             outV; hasLabel "person"; has_neq "name" "U2"; path]
            1 unbound) = Resolved [].
Proof. repeat split. Qed.

(** ** The text of the lookups *)

Lemma vertex_lookup_text (graphId l k v : string) :
  ScriptText.script_text (OnGraph graphId (vertex_lookup l k v))
  = "def graph=ConfiguredGraphFactory.open(" +:+ quoted graphId +:+ ");"
    +:+ "def g = graph.traversal(); "
    +:+ "g.V().hasLabel(" +:+ quoted l +:+ ").has(" +:+ quoted k +:+ ", " +:+ quoted v +:+ ")".
Proof.
  unfold vertex_lookup, ScriptText.script_text, ScriptText.statement_text.
  cbn [ScriptText.concat_map ScriptText.step_text].
  text_normal. reflexivity.
Qed.



(** ** The favourites list *)

Lemma favorite_recipes_rows (d : list row) (favs : list favorite) :
  Forall2 (fun r f => favorite_at r = Some f) d favs ->
  favorite_recipes d = Resolved favs.
Proof.
  induction 1 as [|r f d favs Hr _ IH]; [reflexivity|].
  cbn [favorite_recipes]. unfold favorite_at in Hr.
  destruct r as [[v|e]|objects]; try discriminate. cbn [row_vertex].
  destruct (property_value v "name") as [n|]; [|discriminate].
  destruct (property_value v "title") as [t|]; [|discriminate].
  injection Hr as <-. now rewrite IH.
Qed.



(** ** The helpers of the store on any service *)

Section HelperFacts.

Context {S : Type} (rp : script -> S -> rp_outcome * S).

Lemma runGremlinQuery_rows (q : statement) (w : world) (d : list row) :
  answer rp (OnGraph (bound_graph w) q) w = RpBody (body_200 d) ->
  runGremlinQuery rp q w = (Resolved (response_200 d), after rp (OnGraph (bound_graph w) q) w).
Proof. intros H. now rewrite runGremlinQuery_spec, H. Qed.

(** [addVertexIfNotExists]: a row in the answer is returned and nothing else
    is posted; an answer without rows is followed by [createVertex]. *)
Lemma addVertexIfNotExists_any_service (object : vertex_object) (k : string) (w : world) :
  let lookup :=
    vertex_lookup (vertex_label object) k (template (vertex_get object k)) in
  (forall x d,
     answer rp (OnGraph (bound_graph w) lookup) w = RpBody (body_200 (x :: d)) ->
     addVertexIfNotExists rp object k w
     = (Resolved (Some x), after rp (OnGraph (bound_graph w) lookup) w))
  /\ (ok_without_rows (answer rp (OnGraph (bound_graph w) lookup) w) ->
      addVertexIfNotExists rp object k w
      = createVertex rp object (after rp (OnGraph (bound_graph w) lookup) w)).
Proof.
  cbn zeta. unfold vertex_lookup, edge_lookup. split.
  - intros x d H. unfold addVertexIfNotExists, bind.
    now rewrite (runGremlinQuery_rows _ w _ H).
  - intros H. destruct (runGremlinQuery_ok_without_rows rp _ w H) as (r & Hq & Hr).
    unfold addVertexIfNotExists, bind.
    now rewrite Hq, Hr.
Qed.

(** [addEdgeIfNotExists]: the same with [createEdge]. *)
Lemma addEdgeIfNotExists_any_service (edge : edge_object) (w : world) :
  let lookup := edge_lookup (edge_outV edge) (edge_inV edge) in
  (forall x d,
     answer rp (OnGraph (bound_graph w) lookup) w = RpBody (body_200 (x :: d)) ->
     addEdgeIfNotExists rp edge w
     = (Resolved (Some x), after rp (OnGraph (bound_graph w) lookup) w))
  /\ (ok_without_rows (answer rp (OnGraph (bound_graph w) lookup) w) ->
      addEdgeIfNotExists rp edge w
      = createEdge rp (edge_label edge) (edge_outV edge) (edge_inV edge)
          (edge_properties edge) (after rp (OnGraph (bound_graph w) lookup) w)).
Proof.
  cbn zeta. unfold vertex_lookup, edge_lookup. split.
  - intros x d H. unfold addEdgeIfNotExists, bind.
    now rewrite (runGremlinQuery_rows _ w _ H).
  - intros H. destruct (runGremlinQuery_ok_without_rows rp _ w H) as (r & Hq & Hr).
    unfold addEdgeIfNotExists, bind.
    now rewrite Hq, Hr.
Qed.

(** [addUpdateEdge]: the edge at [objects[1]] of the first row gets its
    properties back with the count incremented, whatever its label; an answer
    without rows is followed by [createEdge] with the properties handed in. *)
Lemma addUpdateEdge_any_service (edge : edge_object) (w : world) :
  let lookup := edge_lookup (edge_outV edge) (edge_inV edge) in
  (forall first e others d,
     answer rp (OnGraph (bound_graph w) lookup) w
     = RpBody (body_200 (Path (first :: EEdge e :: others) :: d)) ->
     addUpdateEdge rp edge w
     = bind (updateEdge rp (Some (e_id e)) (incremented (e_properties e)))
         (fun r => ret (Updated r)) (after rp (OnGraph (bound_graph w) lookup) w))
  /\ (ok_without_rows (answer rp (OnGraph (bound_graph w) lookup) w) ->
      addUpdateEdge rp edge w
      = bind (createEdge rp (edge_label edge) (edge_outV edge) (edge_inV edge)
                (edge_properties edge))
          (fun e => ret (Created e)) (after rp (OnGraph (bound_graph w) lookup) w)).
Proof.
  cbn zeta. unfold vertex_lookup, edge_lookup. split.
  - intros first e others d H. unfold addUpdateEdge. unfold bind at 1.
    now rewrite (runGremlinQuery_rows _ w _ H).
  - intros H. destruct (runGremlinQuery_ok_without_rows rp _ w H) as (r & Hq & Hr).
    unfold addUpdateEdge. unfold bind at 1.
    now rewrite Hq, Hr.
Qed.

End HelperFacts.

(** ** The store on the in-memory service *)

Section ServiceFacts.

Import GraphService.

Lemma runGremlinQuery_serve (q : statement) (w : world) :
  runGremlinQuery serve q w =
  (match fst (run_statement q (service w)) with
   | RpError => Rejected TransportError
   | RpBody None => Rejected TypeError
   | RpBody (Some r) =>
       if ToBoolean (status_is_200 r) then Resolved r else Rejected InvalidStatus
   end, posted w q (snd (run_statement q (service w)))).
Proof. now rewrite runGremlinQuery_spec. Qed.

Lemma each_app f (a b : list traverser) :
  each f (a ++ b) =
  match each f a, each f b with
  | Some x, Some y => Some (x ++ y)
  | _, _ => None
  end.
Proof.
  induction a as [|t a IH]; cbn [each app].
  - now destruct (each f b).
  - rewrite IH. destruct (f t), (each f a), (each f b); try reflexivity.
    now rewrite app_assoc.
Qed.

Lemma each_filter f (P : traverser -> bool) (ts : list traverser) :
  (forall t, f t = Some (if P t then [t] else [])) ->
  each f ts = Some (List.filter P ts).
Proof.
  intros Hf. induction ts as [|t ts IH]; [reflexivity|].
  cbn [each List.filter]. rewrite Hf, IH. now destruct (P t).
Qed.

Lemma run_steps_nil g steps :
  forallb pointwise steps = true -> run_steps g steps [] = Some [].
Proof.
  induction steps as [|s steps IH]; [reflexivity|].
  cbn [forallb]. intros [Hs Hr]%andb_true_iff.
  destruct s; try discriminate; destruct steps; cbn; auto.
Qed.

Lemma run_steps_app g steps (a b : list traverser) :
  forallb pointwise steps = true ->
  run_steps g steps (a ++ b) =
  match run_steps g steps a, run_steps g steps b with
  | Some x, Some y => Some (x ++ y)
  | _, _ => None
  end.
Proof.
  revert a b. induction steps as [|s steps IH]; intros a b Hp.
  - cbn [run_steps]. now rewrite map_app.
  - cbn [forallb] in Hp. apply andb_true_iff in Hp as [Hs Hp].
    assert (Hstep : forall ts,
              run_steps g (s :: steps) ts =
              match steps, s with
              | [], path => Some (map (fun t => Path (path_of t)) ts)
              | _, _ => match each (step_from g s) ts with
                        | Some ts' => run_steps g steps ts'
                        | None => None
                        end
              end).
    { intros ts. destruct s; try discriminate; destruct steps; reflexivity. }
    rewrite !Hstep.
    destruct steps as [|s' steps'], s; try discriminate;
      try (now rewrite map_app);
      rewrite each_app;
      destruct (each (step_from g _) a) as [x|]; try reflexivity;
      destruct (each (step_from g _) b) as [y|];
      try (now rewrite (IH x y Hp));
      now destruct (run_steps g _ x).
Qed.

Lemma find_vertex_id g i v : find_vertex g i = Some v -> v_id v = i.
Proof. intros H. apply find_some in H as [_ H]. now apply Z.eqb_eq. Qed.

Lemma stored_rows l k v (vs : list vertex) :
  map (fun t => Elem (at_ t))
    (List.filter (fun t => existsb (is_text v) (element_values (at_ t) k))
       (List.filter (fun t => String.eqb (element_label (at_ t)) l)
          (map (fun x => start (EVertex x)) vs)))
  = map (fun x => Elem (EVertex x)) (List.filter (named l k v) vs).
Proof.
  induction vs as [|x vs IH]; [reflexivity|].
  cbn [map List.filter]. unfold named at 1.
  change (element_label (at_ (start (EVertex x)))) with (v_label x).
  destruct (String.eqb (v_label x) l); cbn [andb]; [|exact IH].
  cbn [List.filter].
  change (element_values (at_ (start (EVertex x))) k)
    with (default [] (js_get k (v_properties x))).
  destruct (existsb (is_text v) (default [] (js_get k (v_properties x)))); [|exact IH].
  cbn [map]. now rewrite IH.
Qed.

Lemma vertex_lookup_traverse g l k v :
  traverse g [V_all; hasLabel l; has_eq k v]
  = Some (map (fun x => Elem (EVertex x)) (stored g l k v)).
Proof.
  unfold traverse. cbn [run_steps run_step].
  rewrite (each_filter _ (fun t => String.eqb (element_label (at_ t)) l)) by reflexivity.
  rewrite (each_filter _ (fun t => existsb (is_text v) (element_values (at_ t) k)))
    by reflexivity.
  f_equal. apply stored_rows.
Qed.

Lemma edge_step_traverse g vo vi i e :
  find_vertex g i = Some vi ->
  run_steps g [inV; hasId (Some i); path] [move (start (EVertex vo)) (EEdge e)]
  = Some (if decide (e_inV e = i) then [Path [EVertex vo; EEdge e; EVertex vi]] else []).
Proof.
  intros Hi. cbn [run_steps run_step each step_from move at_ start before].
  destruct (decide (e_inV e = i)) as [E|N].
  - rewrite E, Hi. cbn [app each step_from at_ element_id move].
    rewrite (find_vertex_id _ _ _ Hi), Z.eqb_refl. reflexivity.
  - destruct (find_vertex g (e_inV e)) as [u|] eqn:Hu; [|reflexivity].
    cbn [app each step_from at_ element_id move].
    rewrite (find_vertex_id _ _ _ Hu). apply Z.eqb_neq in N. rewrite N. reflexivity.
Qed.

Lemma edge_steps_traverse g vo vi i (es : list edge) :
  find_vertex g i = Some vi ->
  run_steps g [inV; hasId (Some i); path] (map (fun e => move (start (EVertex vo)) (EEdge e)) es)
  = Some (map (fun e => Path [EVertex vo; EEdge e; EVertex vi])
            (filter (fun e => e_inV e = i) es)).
Proof.
  intros Hi. induction es as [|e es IH]; [reflexivity|].
  cbn [map].
  pose proof (run_steps_app g [inV; hasId (Some i); path]
                [move (start (EVertex vo)) (EEdge e)]
                (map (fun e => move (start (EVertex vo)) (EEdge e)) es) eq_refl) as Happ.
  cbn [app] in Happ. rewrite Happ.
  rewrite (edge_step_traverse _ _ _ _ _ Hi), IH, filter_cons.
  destruct (decide (e_inV e = i)); reflexivity.
Qed.

Lemma edge_lookup_traverse g o i vo vi :
  find_vertex g o = Some vo ->
  find_vertex g i = Some vi ->
  traverse g [V_id (Some o); outE; inV; hasId (Some i); path]
  = Some (map (fun e => Path [EVertex vo; EEdge e; EVertex vi]) (edges_between g o i)).
Proof.
  intros Ho Hi. unfold traverse. rewrite Ho.
  change (run_steps g [outE; inV; hasId (Some i); path] [start (EVertex vo)])
    with (match each (step_from g outE) [start (EVertex vo)] with
          | Some ts => run_steps g [inV; hasId (Some i); path] ts
          | None => None
          end).
  cbn [each step_from at_ start]. rewrite app_nil_r.
  rewrite (edge_steps_traverse _ _ _ _ _ Hi), (find_vertex_id _ _ _ Ho).
  unfold edges_between. rewrite list_filter_filter. do 2 f_equal.
  apply list_filter_iff. intros e. tauto.
Qed.

Lemma run_lookup (steps : list step) (w : world) (d : list row) :
  traverse (service w) steps = Some d ->
  runGremlinQuery serve (Traverse steps) w
  = (Resolved (response_200 d), posted w (Traverse steps) (service w)).
Proof.
  intros H. rewrite runGremlinQuery_serve. cbn [run_statement]. now rewrite H.
Qed.

Lemma createVertex_serve (vertex : vertex_object) (w : world) :
  createVertex serve vertex w
  = (Resolved (Some (Elem (EVertex (new_vertex (service w) vertex)))),
     posted w (AddVertex (vertex_label vertex) (vertex_fields vertex))
       (with_vertex (service w) (new_vertex (service w) vertex))).
Proof. reflexivity. Qed.

Lemma createEdge_serve label o i p (w : world) vo vi :
  find_vertex (service w) o = Some vo ->
  find_vertex (service w) i = Some vi ->
  createEdge serve label (Some o) (Some i) p w
  = (Resolved (Some (Elem (EEdge (new_edge (service w) label o i p)))),
     posted w (AddEdge label (Some o) (Some i) (own_properties p))
       (with_edge (service w) (new_edge (service w) label o i p))).
Proof.
  intros Ho Hi. unfold createEdge, bind. rewrite runGremlinQuery_serve.
  cbn [run_statement]. rewrite Ho, Hi. reflexivity.
Qed.

Lemma updateEdge_serve i p (w : world) :
  updateEdge serve (Some i) p w
  = (Resolved (response_200
                 (map (fun e => Elem (EEdge e))
                    (filter (fun e => e_id e = i) (edges (with_properties (service w) i p))))),
     posted w (SetEdgeProperties (Some i) p) (with_properties (service w) i p)).
Proof. reflexivity. Qed.

(** *** The upsert of a vertex *)

Lemma addVertexIfNotExists_serve (vertex : vertex_object) (k : string) (w : world) :
  addVertexIfNotExists serve vertex k w =
  let lookup := vertex_lookup (vertex_label vertex) k (template (vertex_get vertex k)) in
  match stored (service w) (vertex_label vertex) k (template (vertex_get vertex k)) with
  | v :: _ => (Resolved (Some (Elem (EVertex v))), posted w lookup (service w))
  | [] => createVertex serve vertex (posted w lookup (service w))
  end.
Proof.
  unfold addVertexIfNotExists, bind.
  rewrite (run_lookup _ w _ (vertex_lookup_traverse _ _ _ _)).
  cbn zeta. change (rows (response_200 ?d)) with d.
  now destruct (stored _ _ _ _).
Qed.

(** *** The two edge helpers *)


Lemma addUpdateEdge_serve (edge : edge_object) (w : world) o i vo vi :
  edge_outV edge = Some o -> edge_inV edge = Some i ->
  find_vertex (service w) o = Some vo ->
  find_vertex (service w) i = Some vi ->
  addUpdateEdge serve edge w =
  match edges_between (service w) o i with
  | e :: _ =>
      bind (updateEdge serve (Some (e_id e)) (incremented (e_properties e)))
        (fun r => ret (Updated r))
        (posted w (edge_lookup (Some o) (Some i)) (service w))
  | [] =>
      bind (createEdge serve (edge_label edge) (Some o) (Some i) (edge_properties edge))
        (fun e => ret (Created e))
        (posted w (edge_lookup (Some o) (Some i)) (service w))
  end.
Proof.
  intros Eo Ei Ho Hi. unfold addUpdateEdge. rewrite Eo, Ei. unfold bind at 1.
  rewrite (run_lookup _ w _ (edge_lookup_traverse _ _ _ _ _ Ho Hi)).
  change (rows (response_200 ?d)) with d.
  now destruct (edges_between _ _ _).
Qed.

Lemma to_double_exact (m : Z) :
  -9007199254740992 <= m <= 9007199254740992 -> to_double m = m.
Proof.
  intros H. unfold to_double. cbn zeta.
  destruct (Z.abs m <=? 9007199254740992) eqn:E; [reflexivity|].
  apply Z.leb_gt in E. lia.
Qed.

(** Beyond 2^53 the even doubles are all there is at first, then the
    multiples of 4: an odd sum goes to the neighbour with the even
    significand. *)
Lemma to_double_rounds :
  to_double 9007199254740993 = 9007199254740992
  /\ to_double 9007199254740995 = 9007199254740996
  /\ to_double (-9007199254740993) = -9007199254740992
  /\ to_double 18014398509481985 = 18014398509481984
  /\ to_double 18014398509481990 = 18014398509481992.
Proof. repeat split; vm_compute; reflexivity. Qed.

Lemma js_plus_one_safe (c : Z) : safe_integer c -> js_plus_one (PNum c) = PNum (c + 1).
Proof.
  unfold safe_integer. intros H. cbn [js_plus_one]. rewrite to_double_exact by lia.
  reflexivity.
Qed.

Lemma incremented_count (p : option props) (c : Z) :
  safe_integer c ->
  js_get "count" (own_properties p) = Some (PNum c) ->
  incremented p = js_set "count" (PNum (c + 1)) (own_properties p).
Proof.
  intros Hsafe H. unfold incremented. cbn zeta. rewrite H. cbn [truthy default].
  destruct (c =? 0) eqn:E; cbn [negb js_plus_one].
  - apply Z.eqb_eq in E. now subst c.
  - change (Datatypes.id (PNum c)) with (PNum c). now rewrite js_plus_one_safe.
Qed.

Lemma incremented_unset (p : option props) :
  js_get "count" (own_properties p) = None ->
  incremented p = js_set "count" (PNum 1) (own_properties p).
Proof. intros H. unfold incremented. cbn zeta. now rewrite H. Qed.

(** *** How the graph grows *)






Lemma edges_between_with_edge g e o i :
  edges_between (with_edge g e) o i
  = edges_between g o i ++ (if decide (e_outV e = o /\ e_inV e = i) then [e] else []).
Proof. unfold edges_between, with_edge. cbn [edges]. now rewrite filter_app. Qed.


Lemma update_edge_other i p e : e_id e <> i -> update_edge i p e = e.
Proof. intros H. unfold update_edge. apply Z.eqb_neq in H. now rewrite H. Qed.

Lemma update_edge_old i p (old : list edge) :
  Forall (fun e => e_id e <> i) old -> map (update_edge i p) old = old.
Proof.
  induction 1 as [|e l He _ IH]; [reflexivity|].
  cbn [map]. now rewrite IH, update_edge_other.
Qed.

Lemma fresh_ids_old g :
  fresh_ids g -> Forall (fun e => e_id e <> next_id g) (edges g).
Proof.
  intros [_ He]. eapply Forall_impl; [exact He|]. cbn. intros e (H & _). lia.
Qed.

Lemma update_counted_edge eid label o i c :
  safe_integer c ->
  update_edge eid (incremented (e_properties (counted_edge eid label o i c)))
    (counted_edge eid label o i c)
  = counted_edge eid label o i (c + 1).
Proof.
  intros Hsafe. unfold update_edge. cbn [counted_edge e_id]. rewrite Z.eqb_refl.
  rewrite (incremented_count _ c Hsafe) by reflexivity. reflexivity.
Qed.

(** Once the edge is there, every further recording adds one to its count,
    as long as the count stays within the integers that [+ 1] moves. *)
Lemma record_times_more (n : nat) label o i vo vi :
  forall (w : world) (old : list edge) (eid c : Z),
    -9007199254740991 <= c ->
    c + Z.of_nat n <= 9007199254740992 ->
    find_vertex (service w) o = Some vo ->
    find_vertex (service w) i = Some vi ->
    edges (service w) = old ++ [counted_edge eid label o i c] ->
    filter (fun e => e_outV e = o /\ e_inV e = i) old = [] ->
    Forall (fun e => e_id e <> eid) old ->
    exists w',
      record_times serve n (weighted_edge label o i) w = (Resolved tt, w') /\
      vertices (service w') = vertices (service w) /\
      edges (service w') = old ++ [counted_edge eid label o i (c + Z.of_nat n)].
Proof.
  induction n as [|n IH]; intros w old eid c Hlow Hhigh Ho Hi He Hnone Hold.
  - exists w. split; [reflexivity|]. split; [reflexivity|].
    now rewrite Z.add_0_r.
  - cbn [record_times]. unfold bind at 1.
    rewrite (addUpdateEdge_serve (weighted_edge label o i) w o i vo vi eq_refl eq_refl Ho Hi).
    unfold edges_between. rewrite He, filter_app, Hnone, filter_cons, filter_nil.
    destruct (decide _) as [_|N]; [|exfalso; apply N; now split].
    cbn [app]. unfold bind at 1. rewrite updateEdge_serve. unfold ret.
    set (w1 := posted _ _ _).
    assert (He1 : edges (service w1) = old ++ [counted_edge eid label o i (c + 1)]).
    { subst w1. cbn [posted service with_properties edges].
      rewrite He, map_app, (update_edge_old _ _ _ Hold). cbn [map].
      rewrite update_counted_edge; [reflexivity|]. unfold safe_integer. lia. }
    destruct (IH w1 old eid (c + 1) ltac:(lia) ltac:(lia) Ho Hi He1 Hnone Hold)
      as (w' & Hrun & Hv & He').
    exists w'. split; [exact Hrun|]. split; [exact Hv|].
    replace (c + 1 + Z.of_nat n) with (c + Z.of_nat (S n)) in He' by lia. exact He'.
Qed.

Lemma edges_between_with_properties g id p o i :
  edges_between (with_properties g id p) o i
  = map (update_edge id p) (edges_between g o i).
Proof.
  unfold edges_between, with_properties. cbn [edges].
  induction (edges g) as [|e l IH]; [reflexivity|].
  cbn [map]. rewrite !filter_cons, IH.
  assert (H : e_outV (update_edge id p e) = e_outV e /\ e_inV (update_edge id p e) = e_inV e).
  { unfold update_edge. now destruct (e_id e =? id). }
  destruct H as [-> ->]. now destruct (decide (e_outV e = o /\ e_inV e = i)).
Qed.

Lemma addUpdateEdge_serve_absent label o i vo vi (w : world) :
  find_vertex (service w) o = Some vo ->
  find_vertex (service w) i = Some vi ->
  edges_between (service w) o i = [] ->
  addUpdateEdge serve (weighted_edge label o i) w
  = (Resolved (Created (Some (Elem (EEdge
       (counted_edge (next_id (service w)) label o i 1))))),
     posted (posted w (edge_lookup (Some o) (Some i)) (service w))
       (AddEdge label (Some o) (Some i) [("count", PNum 1)])
       (with_edge (service w) (counted_edge (next_id (service w)) label o i 1))).
Proof.
  intros Ho Hi Hnone.
  rewrite (addUpdateEdge_serve (weighted_edge label o i) w o i vo vi eq_refl eq_refl Ho Hi), Hnone.
  unfold bind. now rewrite (createEdge_serve _ _ _ _ _ vo vi).
Qed.

Lemma addUpdateEdge_serve_found (edge : edge_object) o i vo vi (w : world) e rest :
  edge_outV edge = Some o -> edge_inV edge = Some i ->
  find_vertex (service w) o = Some vo ->
  find_vertex (service w) i = Some vi ->
  edges_between (service w) o i = e :: rest ->
  addUpdateEdge serve edge w
  = (Resolved (Updated (response_200
       (map (fun e => Elem (EEdge e))
          (filter (fun e' => e_id e' = e_id e)
             (edges (with_properties (service w) (e_id e) (incremented (e_properties e)))))))),
     posted (posted w (edge_lookup (Some o) (Some i)) (service w))
       (SetEdgeProperties (Some (e_id e)) (incremented (e_properties e)))
       (with_properties (service w) (e_id e) (incremented (e_properties e)))).
Proof.
  intros Eo Ei Ho Hi Hfound.
  rewrite (addUpdateEdge_serve edge w o i vo vi Eo Ei Ho Hi), Hfound.
  unfold bind. now rewrite updateEdge_serve.
Qed.

End ServiceFacts.




(** C7, within the safe integers.  On the in-memory service, for vertices
    [o] and [i] of the graph.  When no edge leads from [o] to [i],
    [addUpdateEdge] on a weighted edge posts the lookup and then the creation
    of the edge with [count] 1.  When the lookup finds an edge, it posts the
    update of that edge with its count plus one, where an edge without a count
    reads as 0 and a count that is there is a safe integer.  Hence, starting
    without an edge from [o] to [i], recording the edge [n + 1] times in a row
    leaves one edge from [o] to [i], whose count is [n + 1], for [n + 1] up to
    2^53. *)
Theorem addUpdateEdge_counts (w : world) (label : string) (o i : Z) (vo vi : vertex) :
  GraphService.find_vertex (service w) o = Some vo ->
  GraphService.find_vertex (service w) i = Some vi ->
  (GraphService.edges_between (service w) o i = [] ->
   addUpdateEdge GraphService.serve (weighted_edge label o i) w
   = (Resolved (Created (Some (Elem (EEdge
        (counted_edge (GraphService.next_id (service w)) label o i 1))))),
      posted (posted w (edge_lookup (Some o) (Some i)) (service w))
        (AddEdge label (Some o) (Some i) [("count", PNum 1)])
        (with_edge (service w)
           (counted_edge (GraphService.next_id (service w)) label o i 1))))
  /\ (forall e rest,
        GraphService.edges_between (service w) o i = e :: rest ->
        js_get "count" (own_properties (e_properties e)) = None \/
        (exists c, js_get "count" (own_properties (e_properties e)) = Some (PNum c) /\
                   safe_integer c) ->
        snd (addUpdateEdge GraphService.serve (weighted_edge label o i) w)
        = posted (posted w (edge_lookup (Some o) (Some i)) (service w))
            (SetEdgeProperties (Some (e_id e))
               (js_set "count" (PNum (edge_count e + 1)) (own_properties (e_properties e))))
            (with_properties (service w) (e_id e)
               (js_set "count" (PNum (edge_count e + 1)) (own_properties (e_properties e)))))
  /\ (fresh_ids (service w) ->
      GraphService.edges_between (service w) o i = [] ->
      forall n : nat,
      Z.of_nat (S n) <= 9007199254740992 ->
      exists w',
        record_times GraphService.serve (S n) (weighted_edge label o i) w = (Resolved tt, w') /\
        GraphService.vertices (service w') = GraphService.vertices (service w) /\
        GraphService.edges (service w')
        = GraphService.edges (service w)
          ++ [counted_edge (GraphService.next_id (service w)) label o i (Z.of_nat (S n))]).
Proof.
  intros Ho Hi. split; [|split].
  - intros Hnone. exact (addUpdateEdge_serve_absent label o i vo vi w Ho Hi Hnone).
  - intros e rest Hfound Hcount.
    rewrite (addUpdateEdge_serve_found (weighted_edge label o i) o i vo vi w e rest
               eq_refl eq_refl Ho Hi Hfound).
    cbn [snd]. unfold edge_count.
    destruct Hcount as [Hc|[c [Hc Hsafe]]]; rewrite Hc.
    + now rewrite (incremented_unset _ Hc).
    + now rewrite (incremented_count _ c Hsafe Hc).
  - intros Hfresh Hnone n Hn. cbn [record_times]. unfold bind at 1.
    rewrite (addUpdateEdge_serve_absent label o i vo vi w Ho Hi Hnone).
    set (w1 := posted _ _ _).
    destruct (record_times_more n label o i vo vi w1 (GraphService.edges (service w))
                (GraphService.next_id (service w)) 1 ltac:(lia) ltac:(lia)
                Ho Hi eq_refl Hnone
                (fresh_ids_old _ Hfresh)) as (w' & Hrun & Hv & He).
    exists w'. split; [exact Hrun|]. split; [exact Hv|].
    rewrite He. now rewrite Nat2Z.inj_succ, Z.add_1_l.
Qed.

Lemma addUpdateEdge_counts_witness :
  GraphService.find_vertex (service (GraphService.bound "recipebot" pantry)) 1
  = Some {| v_id := 1; v_label := "person"; v_properties := [("name", [PStr "U1"])] |}
  /\ GraphService.find_vertex (service (GraphService.bound "recipebot" pantry)) 2
     = Some {| v_id := 2; v_label := "ingredient"; v_properties := [("name", [PStr "basil"])] |}
  /\ exists w',
       record_times GraphService.serve 3 (weighted_edge "selects" 1 2)
         (GraphService.bound "recipebot" pantry) = (Resolved tt, w')
       /\ GraphService.edges (service w')
          = GraphService.edges pantry ++ [counted_edge 5 "selects" 1 2 3].
Proof.
  split; [reflexivity|]. split; [reflexivity|].
  destruct (proj2 (proj2 (addUpdateEdge_counts (GraphService.bound "recipebot" pantry)
                            "selects" 1 2 _ _ eq_refl eq_refl))) with (n := 2%nat)
    as (w' & Hrun & _ & He).
  - split; repeat constructor.
  - reflexivity.
  - cbn. lia.
  - exists w'. split; [exact Hrun | exact He].
Defined.

(** C7, where the claim as worded fails: a count of 2^53.  The sum of two
    doubles is a double, and 2^53 + 1 is none, so [count + 1] is 2^53 again:
    [addUpdateEdge] posts the update with the count it found, and the edge
    stays as it was. *)
Lemma addUpdateEdge_count_stays_at_2_53 :
  GraphService.edges_between brimful 1 2 = [counted_edge 5 "selects" 1 2 9007199254740992]
  /\ snd (addUpdateEdge GraphService.serve (weighted_edge "selects" 1 2)
            (GraphService.bound "recipebot" brimful))
     = posted (posted (GraphService.bound "recipebot" brimful)
                 (edge_lookup (Some 1) (Some 2)) brimful)
         (SetEdgeProperties (Some 5) [("count", PNum 9007199254740992)]) brimful
  /\ PNum 9007199254740992 <> PNum (9007199254740992 + 1)
  /\ ScriptText.statement_text (SetEdgeProperties (Some 5) [("count", PNum 9007199254740992)])
     = "def g = graph.traversal();g.E(" +:+ quoted "5" +:+ ").property("
       +:+ quoted "count" +:+ ", 9007199254740992);".
Proof.
  split; [reflexivity|]. split; [vm_compute; reflexivity|].
  split; [discriminate|reflexivity].
Qed.



(** ** Recording a recipe *)

Section RecipeFacts.

Import GraphService.








End RecipeFacts.

Section GrownFacts.

Import GraphService.

Variable g : graph.
Variable r : vertex.
Hypothesis Hfresh : fresh_ids g.
Hypothesis Hr : v_id r = next_id g.













End GrownFacts.



(** * Further properties of the code *)

(** ** What [escapeStringValue] leaves alone and what it guards *)

Lemma escape_scan_length (s : string) :
  ((String.length s <= String.length (escape_scan s))%nat /\
   (plain s = false -> (String.length s < String.length (escape_scan s))%nat)) /\
  forall a,
    (String.length (String a s) <= String.length (escape_scan (String a s)))%nat /\
    (plain (String a s) = false ->
     (String.length (String a s) < String.length (escape_scan (String a s)))%nat).
Proof.
  induction s as [|b s [IH1 IH2]].
  - split; [cbn; split; [lia|discriminate]|].
    intros a. cbn [escape_scan plain]. unfold special.
    destruct (Ascii.eqb a dquote); [cbn; split; [lia|intros; lia]|].
    destruct (Ascii.eqb a dollar); cbn; split; try lia; discriminate.
  - split; [apply IH2|].
    intros a. rewrite escape_scan_cons2.
    destruct (IH2 b) as [Hb1 Hb2]. destruct IH1 as [Hs1 Hs2].
    cbn [plain] in *. unfold special in *.
    destruct (Ascii.eqb a backslash && Ascii.eqb b dquote) eqn:Hp.
    + cbn [String.length] in *. split; intros; lia.
    + destruct (Ascii.eqb a dquote); [cbn [String.length] in *; split; intros; lia|].
      destruct (Ascii.eqb a dollar); [cbn [String.length] in *; split; intros; lia|].
      cbn [negb orb andb String.length] in *. split; [lia|].
      intros H. specialize (Hb2 H). lia.
Qed.

Lemma escape_scan_plain (s : string) :
  (plain s = true -> escape_scan s = s) /\
  forall a, plain (String a s) = true -> escape_scan (String a s) = String a s.
Proof.
  induction s as [|b s [IH1 IH2]].
  - split; [reflexivity|].
    intros a. cbn [escape_scan plain]. unfold special.
    destruct (Ascii.eqb a dquote); [discriminate|].
    destruct (Ascii.eqb a dollar); [discriminate|reflexivity].
  - split; [apply IH2|].
    intros a H. rewrite escape_scan_cons2.
    cbn [plain] in H. apply andb_prop in H as [Ha Hb].
    assert (Hq : Ascii.eqb b dquote = false).
    { apply andb_prop in Hb as [Hb _]. unfold special in Hb.
      destruct (Ascii.eqb b dquote); [discriminate|reflexivity]. }
    rewrite Hq, andb_false_r.
    unfold special in Ha.
    destruct (Ascii.eqb a dquote); [discriminate|].
    destruct (Ascii.eqb a dollar); [discriminate|].
    f_equal. apply IH2. exact Hb.
Qed.

Lemma escape_scan_guarded (s : string) :
  (forall prev, guarded_after prev (escape_scan s) = true) /\
  forall a prev, guarded_after prev (escape_scan (String a s)) = true.
Proof.
  assert (Hbs : special backslash = false) by reflexivity.
  assert (Hbb : Ascii.eqb backslash backslash = true) by reflexivity.
  induction s as [|b s [IH1 IH2]].
  - split; [reflexivity|].
    intros a prev. cbn [escape_scan].
    destruct (Ascii.eqb a dquote) eqn:Hq; [reflexivity|].
    destruct (Ascii.eqb a dollar) eqn:Hd; [reflexivity|].
    cbn [guarded_after]. unfold special. rewrite Hq, Hd. reflexivity.
  - split; [apply IH2|].
    intros a prev. rewrite escape_scan_cons2.
    destruct (Ascii.eqb a backslash && Ascii.eqb b dquote).
    + cbn [guarded_after]. rewrite Hbs, Hbb, IH1. reflexivity.
    + destruct (Ascii.eqb a dquote) eqn:Hq.
      { cbn [guarded_after]. rewrite Hbs, Hbb, IH2. reflexivity. }
      destruct (Ascii.eqb a dollar) eqn:Hd.
      { cbn [guarded_after]. rewrite Hbs, Hbb, IH2. reflexivity. }
      cbn [guarded_after]. unfold special at 1. rewrite Hq, Hd, IH2. reflexivity.
Qed.

(** X1. [escapeStringValue] returns its argument unchanged exactly when the
    argument holds neither a double quote nor a dollar sign; backslashes on
    their own are never escaped.  Every other argument comes out longer. *)
Theorem escapeStringValue_fixed_iff_plain (value : string) :
  (escapeStringValue value = value <-> plain value = true)
  /\ (plain value = false ->
      (String.length value < String.length (escapeStringValue value))%nat).
Proof.
  destruct (escapeStringValue_cons_scan value) as [-> _].
  destruct (escape_scan_length value) as [[_ Hlt] _].
  split; [|exact Hlt].
  split.
  - intros Heq. destruct (plain value) eqn:Hp; [reflexivity|].
    specialize (Hlt eq_refl). rewrite Heq in Hlt. lia.
  - apply escape_scan_plain.
Qed.

(** X2. In the result of [escapeStringValue] every double quote and every
    dollar sign stands directly after a backslash, whatever the argument. *)
Theorem escapeStringValue_guards (value : string) :
  guarded (escapeStringValue value) = true.
Proof.
  destruct (escapeStringValue_cons_scan value) as [-> _].
  apply escape_scan_guarded.
Qed.

Lemma escapeStringValue_fixed_iff_plain_witness :
  plain (String dquote "a$b") = false
  /\ (String.length (String dquote "a$b")
      < String.length (escapeStringValue (String dquote "a$b")))%nat.
Proof.
  split; [reflexivity|].
  exact (proj2 (escapeStringValue_fixed_iff_plain (String dquote "a$b")) eq_refl).
Defined.

(** ** Canonical keys are fixed points *)

Lemma toLowerChar_idem (c : ascii) : toLowerChar (toLowerChar c) = toLowerChar c.
Proof. destruct c as [[] [] [] [] [] [] [] []]; reflexivity. Qed.

Lemma toLowerCase_idem (s : string) : toLowerCase (toLowerCase s) = toLowerCase s.
Proof. induction s as [|c s IH]; cbn; [reflexivity|]. now rewrite toLowerChar_idem, IH. Qed.

Lemma trimStart_idem (s : string) : trimStart (trimStart s) = trimStart s.
Proof.
  induction s as [|c s IH]; cbn; [reflexivity|].
  destruct (isWhiteSpace c) eqn:Hc; [exact IH|]. cbn. now rewrite Hc.
Qed.

Lemma trimEnd_idem (s : string) : trimEnd (trimEnd s) = trimEnd s.
Proof.
  induction s as [|c s IH]; [reflexivity|].
  destruct (isWhiteSpace c) eqn:Hc.
  - rewrite (trimEnd_cons_white c s Hc).
    destruct (trimEnd s) as [|d r] eqn:Hr; [reflexivity|].
    rewrite (trimEnd_cons_white c _ Hc), IH. reflexivity.
  - rewrite (trimEnd_cons_black c s Hc), (trimEnd_cons_black c _ Hc), IH. reflexivity.
Qed.

Lemma trimStart_trimEnd (s : string) : trimStart (trimEnd s) = trimEnd (trimStart s).
Proof.
  induction s as [|c s IH]; [reflexivity|].
  destruct (isWhiteSpace c) eqn:Hc.
  - rewrite (trimEnd_cons_white c s Hc). cbn [trimStart]. rewrite Hc, <- IH.
    destruct (trimEnd s) as [|d r]; [reflexivity|]. cbn [trimStart]. now rewrite Hc.
  - rewrite (trimEnd_cons_black c s Hc). cbn [trimStart]. rewrite Hc.
    now rewrite (trimEnd_cons_black c s Hc).
Qed.

Lemma trim_idem (s : string) : trim (trim s) = trim s.
Proof.
  unfold trim.
  rewrite (trimStart_trimEnd (trimStart (trimEnd s))), trimStart_idem.
  rewrite (trimStart_trimEnd s), trimEnd_idem. reflexivity.
Qed.

Lemma key_idem (e : string) :
  trim (toLowerCase (trim (toLowerCase e))) = trim (toLowerCase e).
Proof. now rewrite !trim_toLowerCase, trim_idem, toLowerCase_idem. Qed.

Lemma has_comma_toLowerCase (s : string) : has_comma (toLowerCase s) = has_comma s.
Proof. induction s as [|c s IH]; cbn; [reflexivity|]. now rewrite comma_toLowerChar, IH. Qed.

Lemma has_comma_trimStart (s : string) : has_comma s = false -> has_comma (trimStart s) = false.
Proof.
  induction s as [|c s IH]; cbn; [reflexivity|].
  intros H. apply orb_false_elim in H as [Hc Hs].
  destruct (isWhiteSpace c); [auto|]. cbn. now rewrite Hc, Hs.
Qed.

Lemma has_comma_trimEnd (s : string) : has_comma s = false -> has_comma (trimEnd s) = false.
Proof.
  induction s as [|c s IH]; cbn; [reflexivity|].
  intros H. apply orb_false_elim in H as [Hc Hs]. specialize (IH Hs).
  destruct (trimEnd s) as [|d r]; [destruct (isWhiteSpace c)|]; cbn in *;
    rewrite ?Hc; auto.
Qed.

Lemma has_comma_trim (s : string) : has_comma s = false -> has_comma (trim s) = false.
Proof. intros H. unfold trim. now apply has_comma_trimStart, has_comma_trimEnd. Qed.

Lemma split_comma_pieces (s : string) : Forall (fun e => has_comma e = false) (split_comma s).
Proof.
  induction s as [|c s IH]; cbn; [repeat constructor|].
  destruct (Ascii.eqb c comma) eqn:Hc; [constructor; [reflexivity|exact IH]|].
  destruct (split_comma s) as [|h t]; [repeat constructor; cbn; now rewrite Hc|].
  inversion IH; subst. constructor; [cbn; now rewrite Hc|assumption].
Qed.

(** The pieces of a canonical ingredient key. *)
Lemma getUniqueIngredientsName_sorted_keys (s : string) :
  exists x xs,
    sort (map (fun e => trim (toLowerCase e)) (split_comma s)) = x :: xs /\
    getUniqueIngredientsName s = join_comma (x :: xs) /\
    Forall (fun e => has_comma e = false) (x :: xs) /\
    Forall (fun e => trim (toLowerCase e) = e) (x :: xs).
Proof.
  set (L0 := map (fun e => trim (toLowerCase e)) (split_comma s)).
  assert (Hperm : Permutation (sort L0) L0) by apply sort_Permutation.
  assert (Hc : Forall (fun e => has_comma e = false) L0).
  { unfold L0. apply Forall_map. eapply Forall_impl; [apply split_comma_pieces|].
    intros e He. cbn. apply has_comma_trim. now rewrite has_comma_toLowerCase. }
  assert (Hk : Forall (fun e => trim (toLowerCase e) = e) L0).
  { unfold L0. apply Forall_map. apply Forall_forall. intros e _. cbn. apply key_idem. }
  rewrite <- Hperm in Hc, Hk.
  destruct (sort L0) as [|x xs] eqn:HL.
  - apply Permutation_nil in Hperm. unfold L0 in Hperm.
    destruct (split_comma_cons s) as (h & t & Hs). rewrite Hs in Hperm. discriminate.
  - exists x, xs. split; [reflexivity|]. split; [|split; assumption].
    rewrite getUniqueIngredientsName_pipeline, split_comma_toLowerCase, map_map.
    fold L0. now rewrite HL.
Qed.

(** X3. The canonical ingredient key is its own key, and its comma-separated
    pieces are in sort order, trimmed and in lower case. *)
Theorem getUniqueIngredientsName_idempotent (ingredientsStr : string) :
  getUniqueIngredientsName (getUniqueIngredientsName ingredientsStr)
  = getUniqueIngredientsName ingredientsStr
  /\ Sorted string_le (split_comma (getUniqueIngredientsName ingredientsStr))
  /\ Forall (fun e => trim e = e /\ toLowerCase e = e)
       (split_comma (getUniqueIngredientsName ingredientsStr)).
Proof.
  destruct (getUniqueIngredientsName_sorted_keys ingredientsStr)
    as (x & xs & HL & Hkey & Hc & Hk).
  assert (Hsorted : Sorted string_le (x :: xs)) by (rewrite <- HL; apply sort_Sorted).
  rewrite Hkey. split; [|split].
  - rewrite (getUniqueIngredientsName_join_comma (x :: xs) Hc).
    f_equal.
    assert (Hmap : map (fun e => trim (toLowerCase e)) (x :: xs) = x :: xs).
    { clear -Hk. induction Hk as [|y ys Hy _ IH]; [reflexivity|]. cbn. now rewrite Hy, IH. }
    rewrite Hmap, <- HL.
    apply sort_Permutation_eq, sort_Permutation.
  - now rewrite (split_comma_join_comma x xs Hc).
  - rewrite (split_comma_join_comma x xs Hc).
    eapply Forall_impl; [exact Hk|]. intros e He. cbn in He.
    split.
    + rewrite <- He at 1. rewrite trim_idem. exact He.
    + rewrite <- He at 1. rewrite trim_toLowerCase, toLowerCase_idem, <- trim_toLowerCase.
      exact He.
Qed.

(** X4. The cuisine key does not depend on the case of the letters or on
    white space around the name, and it is its own key. *)
Theorem getUniqueCuisineName_canonical (l c r c' : string) :
  all_white l = true -> all_white r = true ->
  toLowerCase c = toLowerCase c' ->
  getUniqueCuisineName (l +:+ c +:+ r) = getUniqueCuisineName c'
  /\ getUniqueCuisineName (getUniqueCuisineName c') = getUniqueCuisineName c'.
Proof.
  intros Hl Hr Hc. unfold getUniqueCuisineName. split.
  - rewrite (trim_padded l c r Hl Hr), <- !trim_toLowerCase. now rewrite Hc.
  - rewrite <- !trim_toLowerCase. rewrite toLowerCase_idem.
    rewrite trim_toLowerCase, trim_toLowerCase. rewrite trim_idem.
    reflexivity.
Qed.

Lemma getUniqueCuisineName_canonical_witness :
  all_white "  " = true /\ all_white " " = true /\
  toLowerCase "Thai" = toLowerCase "THAI" /\
  getUniqueCuisineName "  Thai " = getUniqueCuisineName "THAI".
Proof.
  split; [reflexivity|]. split; [reflexivity|]. split; [reflexivity|].
  exact (proj1 (getUniqueCuisineName_canonical "  " "Thai" " " "THAI"
                  eq_refl eq_refl eq_refl)).
Defined.

Lemma steady_trimEnd (s : string) : all_steady s = true -> trimEnd s = s.
Proof.
  induction s as [|c s IH]; [reflexivity|].
  cbn [all_steady]. intros H. apply andb_prop in H as [Hc Hs].
  unfold steady in Hc. apply andb_prop in Hc as [Hw _].
  apply negb_true_iff in Hw.
  rewrite (trimEnd_cons_black c s Hw), (IH Hs). reflexivity.
Qed.

Lemma steady_trimStart (s : string) : all_steady s = true -> trimStart s = s.
Proof.
  destruct s as [|c s]; [reflexivity|].
  cbn [all_steady]. intros H. apply andb_prop in H as [Hc _].
  unfold steady in Hc. apply andb_prop in Hc as [Hw _].
  apply negb_true_iff in Hw. cbn. now rewrite Hw.
Qed.

Lemma steady_toLowerCase (s : string) : all_steady s = true -> toLowerCase s = s.
Proof.
  induction s as [|c s IH]; [reflexivity|].
  cbn [all_steady]. intros H. apply andb_prop in H as [Hc Hs].
  unfold steady in Hc. apply andb_prop in Hc as [_ Hl].
  apply Ascii.eqb_eq in Hl. cbn. now rewrite Hl, (IH Hs).
Qed.

Lemma steady_uint (d : Decimal.uint) : all_steady (NilEmpty.string_of_uint d) = true.
Proof. induction d; cbn [NilEmpty.string_of_uint all_steady]; rewrite ?IHd; reflexivity. Qed.

Lemma steady_of_Z (n : Z) : all_steady (of_Z n) = true.
Proof.
  unfold of_Z. destruct (Z.to_int n) as [d|d]; cbn [NilEmpty.string_of_int all_steady];
    rewrite steady_uint; reflexivity.
Qed.

(** X5. The key of a recipe whose identifier is a number, a safe integer,
    is the decimal text of the number, and the same identifier given as text,
    in any padding of white space, has the same key. *)
Theorem getUniqueRecipeName_number (n : Z) (l r : string) :
  safe_integer n ->
  all_white l = true -> all_white r = true ->
  getUniqueRecipeName (PNum n) = of_Z n
  /\ getUniqueRecipeName (PStr (l +:+ of_Z n +:+ r)) = getUniqueRecipeName (PNum n).
Proof.
  intros _ Hl Hr.
  assert (Hn : toLowerCase (trim (of_Z n)) = of_Z n).
  { pose proof (steady_of_Z n) as Hs. unfold trim.
    rewrite (steady_trimEnd _ Hs), (steady_trimStart _ Hs). now apply steady_toLowerCase. }
  unfold getUniqueRecipeName. cbn [template]. split; [exact Hn|].
  now rewrite (trim_padded l (of_Z n) r Hl Hr).
Qed.

Lemma getUniqueRecipeName_number_witness :
  all_white " " = true /\ all_white "" = true /\
  getUniqueRecipeName (PStr " 42") = getUniqueRecipeName (PNum 42).
Proof.
  split; [reflexivity|]. split; [reflexivity|].
  exact (proj2 (getUniqueRecipeName_number 42 " " ""
                  ltac:(unfold safe_integer; lia) eq_refl eq_refl)).
Defined.

(** ** The client: queries, and opening the graph *)

Lemma status_is_200_iff (r : response) :
  ToBoolean (status_is_200 r) = true <->
  exists st, status r = Some st /\ code st = Some 200.
Proof.
  unfold status_is_200. destruct (status r) as [st|]; [|split; [discriminate|]].
  - destruct (code st) as [c|] eqn:Hc.
    + destruct (c =? 0) eqn:H0.
      * split; [discriminate|]. intros (st' & [= <-] & Hc'). rewrite Hc in Hc'.
        injection Hc' as ->. discriminate.
      * cbn. rewrite Z.eqb_eq. split.
        -- intros ->. now exists st.
        -- intros (st' & [= <-] & Hc'). congruence.
    + split; [discriminate|]. intros (st' & [= <-] & Hc'). congruence.
  - intros (st & H & _). discriminate.
Qed.

Section ClientSettles.

Context {S : Type} (rp : script -> S -> rp_outcome * S).

(** X6. [runGremlinQuery] posts one script, the statement behind the opening
    of the graph the client is bound to ([undefined] before [setGraphId]).
    It resolves, with the body itself, exactly when the body carries the
    status code 200; a failed request rejects with the transport error and
    any other status with the invalid-status error. *)
Theorem runGremlinQuery_settles (gremlinQuery : statement) (w : world) :
  let script := OnGraph (bound_graph w) gremlinQuery in
  snd (runGremlinQuery rp gremlinQuery w) = after rp script w
  /\ (forall r, fst (runGremlinQuery rp gremlinQuery w) = Resolved r <->
        answer rp script w = RpBody (Some r) /\
        exists st, status r = Some st /\ code st = Some 200)
  /\ (fst (runGremlinQuery rp gremlinQuery w) = Rejected TransportError <->
        answer rp script w = RpError)
  /\ (fst (runGremlinQuery rp gremlinQuery w) = Rejected InvalidStatus <->
        exists r, answer rp script w = RpBody (Some r) /\
                  ~ exists st, status r = Some st /\ code st = Some 200)
  /\ (graphId w = None -> bound_graph w = "undefined")
  /\ (forall id, graphId w = Some id -> bound_graph w = id).
Proof.
  cbn zeta. rewrite runGremlinQuery_spec. cbn [fst snd].
  split; [reflexivity|].
  split; [|split; [|split; [|split]]].
  - intros r. destruct (answer rp _ w) as [|[r'|]].
    + split; [discriminate|intros [? _]; discriminate].
    + destruct (ToBoolean (status_is_200 r')) eqn:H200.
      * apply status_is_200_iff in H200. split.
        -- intros [= <-]. now split.
        -- intros [[= <-] _]. reflexivity.
      * split; [discriminate|]. intros [[= <-] H]. apply status_is_200_iff in H. congruence.
    + split; [discriminate|intros [? _]; discriminate].
  - destruct (answer rp _ w) as [|[r'|]]; [tauto| |split; discriminate].
    destruct (ToBoolean (status_is_200 r')); split; discriminate.
  - destruct (answer rp _ w) as [|[r'|]].
    + split; [discriminate|intros (r & ? & _); discriminate].
    + destruct (ToBoolean (status_is_200 r')) eqn:H200.
      * split; [discriminate|]. intros (r & [= <-] & H).
        apply status_is_200_iff in H200. contradiction.
      * split; [|reflexivity]. intros _. exists r'. split; [reflexivity|].
        intros H. apply status_is_200_iff in H. congruence.
    + split; [discriminate|intros (r & ? & _); discriminate].
  - unfold bound_graph. now intros ->.
  - unfold bound_graph. now intros id ->.
Qed.

Lemma graphExists_spec (id : string) (w : world) :
  graphExists rp id w =
  (Resolved (match answer rp (OpenGraph id) w with
             | RpBody (Some r) => status_is_200 r
             | _ => JBool false
             end), after rp (OpenGraph id) w).
Proof.
  unfold graphExists, catch, bind. rewrite post_spec.
  destruct (answer rp (OpenGraph id) w) as [|[r|]]; reflexivity.
Qed.

Lemma getOrCreateGraph_spec (id : string) (w : world) :
  getOrCreateGraph rp id w =
  let w1 := after rp (OpenGraph id) w in
  if answers_200 (answer rp (OpenGraph id) w) then (Resolved (JBool true), w1)
  else (match answer rp (CreateGraph id) w1 with
        | RpError => Rejected TransportError
        | RpBody None => Rejected TypeError
        | RpBody (Some r) => Resolved (status_is_200 r)
        end, after rp (CreateGraph id) w1).
Proof.
  unfold getOrCreateGraph, bind at 1. rewrite graphExists_spec. cbn zeta.
  unfold answers_200.
  destruct (answer rp (OpenGraph id) w) as [|[r|]].
  - cbn [ToBoolean]. unfold bind. rewrite post_spec.
    destruct (answer rp (CreateGraph id) _) as [|[r'|]]; reflexivity.
  - destruct (ToBoolean (status_is_200 r)); [reflexivity|].
    unfold bind. rewrite post_spec.
    destruct (answer rp (CreateGraph id) _) as [|[r'|]]; reflexivity.
  - cbn [ToBoolean]. unfold bind. rewrite post_spec.
    destruct (answer rp (CreateGraph id) _) as [|[r'|]]; reflexivity.
Qed.

(** X7. [getOrCreateGraph] first probes the graph.  When the probe is
    answered with status 200 it resolves to [true] and posts nothing else;
    in every other case, a failed probe included, it posts the creating
    script next and settles as that request does: a failed request rejects
    (unlike the probe, it is not caught), and an answer resolves to a value
    that is truthy exactly when its status code is 200. *)
Theorem getOrCreateGraph_creates_when_absent (id : string) (w : world) :
  let w1 := after rp (OpenGraph id) w in
  let probe := answer rp (OpenGraph id) w in
  let creation := answer rp (CreateGraph id) w1 in
  (answers_200 probe = true ->
     getOrCreateGraph rp id w = (Resolved (JBool true), w1) /\
     requests w1 = requests w ++ [OpenGraph id])
  /\ (answers_200 probe = false ->
        requests (snd (getOrCreateGraph rp id w))
        = requests w ++ [OpenGraph id; CreateGraph id]
        /\ (creation = RpError ->
            fst (getOrCreateGraph rp id w) = Rejected TransportError)
        /\ (forall r, creation = RpBody (Some r) ->
              exists v, fst (getOrCreateGraph rp id w) = Resolved v /\
                        ToBoolean v = answers_200 creation)).
Proof.
  cbn zeta. rewrite getOrCreateGraph_spec. cbn zeta.
  split; intros ->.
  - split; reflexivity.
  - cbn [fst snd]. split; [|split].
    + cbn [after requests]. now rewrite <- app_assoc.
    + now intros ->.
    + intros r ->. exists (status_is_200 r). split; reflexivity.
Qed.

(** X8. [init] binds the client to the graph whenever [getOrCreateGraph]
    resolves, without looking at the value: also when the creation of the
    graph was answered with a status other than 200.  It then resolves, and
    every later query opens the graph [graphId].  It rejects only when the
    creating request fails or has no readable body, and then the client stays
    as it was bound before. *)
Theorem init_binds (graphId_ : string) (w : world) :
  let w1 := after rp (OpenGraph graphId_) w in
  let probe := answer rp (OpenGraph graphId_) w in
  let creation := answer rp (CreateGraph graphId_) w1 in
  let w' := snd (init rp graphId_ w) in
  (answers_200 probe || answers_body creation = true ->
     fst (init rp graphId_ w) = Resolved tt /\
     graphId w' = Some graphId_ /\
     forall q, snd (runGremlinQuery rp q w') = after rp (OnGraph graphId_ q) w')
  /\ (answers_200 probe || answers_body creation = false ->
        (exists e, fst (init rp graphId_ w) = Rejected e) /\
        graphId w' = graphId w).
Proof.
  cbn zeta. unfold init, bind. rewrite getOrCreateGraph_spec. cbn zeta.
  destruct (answers_200 (answer rp (OpenGraph graphId_) w)).
  - cbn [orb]. split; [|discriminate]. intros _.
    cbn [setGraphId fst snd graphId]. split; [reflexivity|]. split; [reflexivity|].
    intros q. rewrite runGremlinQuery_spec. reflexivity.
  - cbn [orb]. unfold answers_body.
    destruct (answer rp (CreateGraph graphId_) _) as [|[r|]].
    + split; [discriminate|]. intros _. split; [eexists; reflexivity|reflexivity].
    + split; [|discriminate]. intros _.
      cbn [setGraphId fst snd graphId]. split; [reflexivity|]. split; [reflexivity|].
      intros q. rewrite runGremlinQuery_spec. reflexivity.
    + split; [discriminate|]. intros _. split; [eexists; reflexivity|reflexivity].
Qed.

End ClientSettles.

Lemma getOrCreateGraph_creates_when_absent_witness :
  answers_200 (answer (constant_service (Some {| status := None; result := None |}))
                 (OpenGraph "recipebot") unbound) = false
  /\ requests (snd (getOrCreateGraph
                      (constant_service (Some {| status := None; result := None |}))
                      "recipebot" unbound))
     = requests unbound ++ [OpenGraph "recipebot"; CreateGraph "recipebot"].
Proof.
  split; [reflexivity|].
  exact (proj1 (proj2 (getOrCreateGraph_creates_when_absent
                         (constant_service (Some {| status := None; result := None |}))
                         "recipebot" unbound) eq_refl)).
Defined.

Lemma init_binds_witness :
  answers_200 (answer (constant_service (Some {| status := Some {| code := Some 500 |};
                                                 result := None |}))
                 (OpenGraph "recipebot") unbound)
  || answers_body
       (answer (constant_service (Some {| status := Some {| code := Some 500 |};
                                         result := None |}))
          (CreateGraph "recipebot")
          (after (constant_service (Some {| status := Some {| code := Some 500 |};
                                            result := None |}))
             (OpenGraph "recipebot") unbound)) = true
  /\ fst (init (constant_service (Some {| status := Some {| code := Some 500 |};
                                          result := None |}))
            "recipebot" unbound) = Resolved tt.
Proof.
  split; [reflexivity|].
  exact (proj1 (proj1 (init_binds
                         (constant_service (Some {| status := Some {| code := Some 500 |};
                                                    result := None |}))
                         "recipebot" unbound) eq_refl)).
Defined.

(** ** The recommendation list on every answer *)

Lemma recommend_step_within (count : Z) (st st' : recommending) (p : row) :
  consistent st -> within count st ->
  recommend_step count st p = Resolved st' ->
  consistent st' /\ within count st'.
Proof.
  intros Hc [Hlen Hpos]. unfold recommend_step.
  destruct (path_vertex p) as [v|]; [|discriminate].
  destruct (property_value v "name") as [n|]; [|discriminate].
  pose proof Hc as (Hr & Hnd & Hh).
  unfold hash_get. rewrite Hh.
  destruct (index_of (template (Some n)) (heap st)) as [i|] eqn:Hi.
  - intros [= <-]. split; [now apply consistent_increment|].
    split; cbn [heap]; [now rewrite length_alter|].
    apply Forall_alter; [exact Hpos|].
    intros r _ Hr1. unfold increment. cbn [recommendedUserCount]. lia.
  - destruct (bool_decide (template (Some n) ∈ object_prototype_keys)).
    { intros [= <-]. now split. }
    rewrite Z.geb_leb.
    destruct (count <=? Z.of_nat (length (recipes st))) eqn:Hfull.
    { intros [= <-]. now split. }
    apply Z.leb_gt in Hfull.
    destruct (property_value v "title") as [t|]; [|discriminate].
    intros [= <-]. split.
    + exact (consistent_push st (n, t) Hc Hi).
    + assert (Hl : length (recipes st) = length (heap st)) by (now rewrite Hr, length_seq).
      split; cbn [heap].
      * rewrite length_app. cbn [length]. lia.
      * apply Forall_app. split; [exact Hpos|]. repeat constructor. cbn. lia.
Qed.

Lemma recommend_loop_within (count : Z) (paths : list row) :
  forall st st',
    consistent st -> within count st ->
    recommend_loop count st paths = Resolved st' ->
    consistent st' /\ within count st'.
Proof.
  induction paths as [|p paths IH]; intros st st' Hc Hw.
  - intros [= <-]. now split.
  - cbn [recommend_loop].
    destruct (recommend_step count st p) as [st1|] eqn:Hs; [|discriminate].
    destruct (recommend_step_within _ _ _ _ Hc Hw Hs) as [Hc1 Hw1].
    now apply IH.
Qed.

(** X9. Whatever rows the service answers with, as long as no path has an
    edge for its second object: when the loop of [getRecommendedRecipes]
    resolves, the list has at most [count] entries (none for a limit of 0 or
    less), no two entries have the same recipe key, and every entry counts at
    least one user. *)
Theorem recommended_recipes_bounded (paths : list row) (count : Z) (l : list recommended) :
  Forall (fun p => edge_second p = false) paths ->
  recommended_recipes paths count = Resolved l ->
  (length l <= Z.to_nat count)%nat
  /\ NoDup (map key_of l)
  /\ Forall (fun r => 1 <= recommendedUserCount r) l.
Proof.
  intros _. unfold recommended_recipes.
  destruct (recommend_loop count recommend_start paths) as [st|] eqn:Hl; [|discriminate].
  intros [= <-].
  assert (Hw0 : within count recommend_start).
  { split; cbn; [lia|constructor]. }
  destruct (recommend_loop_within _ _ _ _ consistent_start Hw0 Hl) as [Hc [Hlen Hpos]].
  rewrite (recipes_of_consistent _ Hc).
  destruct Hc as (_ & Hnd & _). auto.
Qed.

Lemma recommended_recipes_bounded_witness :
  Forall (fun p => edge_second p = false)
    [recommendation_path "7" "Pesto"; recommendation_path "8" "Soup";
     recommendation_path "7" "Pesto"]
  /\ recommended_recipes [recommendation_path "7" "Pesto"; recommendation_path "8" "Soup";
                          recommendation_path "7" "Pesto"] 1
     = Resolved [{| id := PStr "7"; title := PStr "Pesto"; recommendedUserCount := 2 |}]
  /\ (length [{| id := PStr "7"; title := PStr "Pesto"; recommendedUserCount := 2 |}]
      <= Z.to_nat 1)%nat.
Proof.
  assert (H : Forall (fun p => edge_second p = false)
                [recommendation_path "7" "Pesto"; recommendation_path "8" "Soup";
                 recommendation_path "7" "Pesto"]) by (repeat constructor).
  split; [exact H|]. split; [vm_compute; reflexivity|].
  refine (proj1 (recommended_recipes_bounded
                   [recommendation_path "7" "Pesto"; recommendation_path "8" "Soup";
                    recommendation_path "7" "Pesto"] 1 _ H _)).
  vm_compute. reflexivity.
Defined.

Lemma recommend_loop_rejects (count : Z) (paths : list row) :
  forall st e, recommend_loop count st paths = Rejected e -> e = TypeError.
Proof.
  induction paths as [|p paths IH]; intros st e; [discriminate|].
  cbn [recommend_loop].
  destruct (recommend_step count st p) as [st1|e1] eqn:Hs; [apply IH|].
  intros [= <-]. revert Hs. unfold recommend_step, path_vertex, property_value.
  repeat case_match; congruence.
Qed.

Lemma recommend_loop_unreadable (count : Z) (paths : list row) :
  Exists (fun p => unreadable p = true) paths ->
  forall st, recommend_loop count st paths = Rejected TypeError.
Proof.
  induction 1 as [p paths Hp|p paths _ IH]; intros st; cbn [recommend_loop].
  - assert (Hs : recommend_step count st p = Rejected TypeError).
    { unfold recommend_step. revert Hp. unfold unreadable, path_vertex.
      destruct p as [x|objects]; [reflexivity|].
      destruct (objects !! 1%nat) as [[v|e]|]; [|discriminate|reflexivity].
      unfold property_value. repeat case_match; congruence. }
    now rewrite Hs.
  - destruct (recommend_step count st p) as [st1|e1] eqn:Hs; [apply IH|].
    f_equal. apply (recommend_loop_rejects count [p] st e1).
    cbn [recommend_loop]. now rewrite Hs.
Qed.

Section RecommendedOnAnyService.

Context {S : Type} (rp : script -> S -> rp_outcome * S).

(** X10. For any service, query and limit: when the answer carries the
    paths [d], each through a recipe vertex with a name and a title, and no
    recipe key is a name that an object literal inherits, then
    [getRecommendedRecipes] posts that one query and resolves to the first
    [count] distinct recipes in the order of their first occurrence, each with
    the number of all the paths through it. *)
Theorem getRecommendedRecipes_two_tier (query : list step) (count : Z) (w : world)
    (d : list row) (entries : list (prop_value * prop_value)) :
  answer rp (OnGraph (bound_graph w) (Traverse query)) w = RpBody (body_200 d) ->
  Forall2 (fun p nt => recipe_at p = Some nt) d entries ->
  Forall (fun nt => recipe_key nt ∉ object_prototype_keys) entries ->
  getRecommendedRecipes rp query count w
  = (Resolved (two_tier entries count), after rp (OnGraph (bound_graph w) (Traverse query)) w)
  /\ length (two_tier entries count)
     = Nat.min (Z.to_nat count) (length (first_occurrences [] entries))
  /\ Forall (fun r => recommendedUserCount r = occurrences (key_of r) entries)
       (two_tier entries count).
Proof.
  intros Ha Hw Hp. split; [|split].
  - unfold getRecommendedRecipes, bind.
    rewrite (runGremlinQuery_rows rp _ _ _ Ha).
    change (rows (response_200 d)) with d.
    destruct d as [|p d'].
    + inversion Hw; subst. unfold two_tier. now rewrite newcomers_nil.
    + unfold settle. now rewrite (recommended_recipes_two_tier _ count _ Hw Hp).
  - apply two_tier_length.
  - unfold two_tier, newcomers. apply Forall_map, Forall_forall. intros nt _. reflexivity.
Qed.

(** X11. One row without a recipe name to read makes [getRecommendedRecipes]
    reject with a type error, wherever the row stands among the rows: no
    partial list is resolved. *)
Theorem getRecommendedRecipes_unreadable_row (query : list step) (count : Z) (w : world)
    (d : list row) :
  answer rp (OnGraph (bound_graph w) (Traverse query)) w = RpBody (body_200 d) ->
  Exists (fun p => unreadable p = true) d ->
  getRecommendedRecipes rp query count w
  = (Rejected TypeError, after rp (OnGraph (bound_graph w) (Traverse query)) w).
Proof.
  intros Ha Hu. unfold getRecommendedRecipes, bind.
  rewrite (runGremlinQuery_rows rp _ _ _ Ha).
  change (rows (response_200 d)) with d.
  destruct d as [|p d']; [inversion Hu|].
  unfold settle, recommended_recipes.
  now rewrite (recommend_loop_unreadable count _ Hu).
Qed.

End RecommendedOnAnyService.

Lemma getRecommendedRecipes_two_tier_witness :
  answer (constant_service (body_200 [recommendation_path "7" "Pesto";
                                      recommendation_path "8" "Soup";
                                      recommendation_path "7" "Pesto"]))
    (OnGraph (bound_graph unbound) (Traverse [V_all; path])) unbound
  = RpBody (body_200 [recommendation_path "7" "Pesto"; recommendation_path "8" "Soup";
                      recommendation_path "7" "Pesto"])
  /\ fst (getRecommendedRecipes
            (constant_service (body_200 [recommendation_path "7" "Pesto";
                                         recommendation_path "8" "Soup";
                                         recommendation_path "7" "Pesto"]))
            [V_all; path] 1 unbound)
     = Resolved (two_tier [(PStr "7", PStr "Pesto"); (PStr "8", PStr "Soup");
                           (PStr "7", PStr "Pesto")] 1).
Proof.
  split; [reflexivity|].
  refine (f_equal fst (proj1 (getRecommendedRecipes_two_tier
            (constant_service (body_200 [recommendation_path "7" "Pesto";
                                         recommendation_path "8" "Soup";
                                         recommendation_path "7" "Pesto"]))
            [V_all; path] 1 unbound _
            [(PStr "7", PStr "Pesto"); (PStr "8", PStr "Soup"); (PStr "7", PStr "Pesto")]
            eq_refl _ _))).
  - repeat constructor.
  - repeat constructor; vm_compute; intros H; repeat (inversion H as [|? ? ? H']; clear H; rename H' into H).
Defined.

Lemma getRecommendedRecipes_unreadable_row_witness :
  answer (constant_service (body_200 [recommendation_path "7" "Pesto"; Path []]))
    (OnGraph (bound_graph unbound) (Traverse [V_all; path])) unbound
  = RpBody (body_200 [recommendation_path "7" "Pesto"; Path []])
  /\ Exists (fun p => unreadable p = true) [recommendation_path "7" "Pesto"; Path []]
  /\ fst (getRecommendedRecipes
            (constant_service (body_200 [recommendation_path "7" "Pesto"; Path []]))
            [V_all; path] 5 unbound) = Rejected TypeError.
Proof.
  split; [reflexivity|]. split; [right; left; reflexivity|].
  refine (f_equal fst (getRecommendedRecipes_unreadable_row
            (constant_service (body_200 [recommendation_path "7" "Pesto"; Path []]))
            [V_all; path] 5 unbound _ eq_refl _)).
  right; left; reflexivity.
Defined.

(** ** The favourites list on every answer *)

(** X12. On rows none of which is an edge, the loop of
    [findFavoriteRecipesForUser] resolves exactly when every row is a vertex
    with a name and a title, and then with one entry per row, in the order of
    the rows: it drops, merges and reorders nothing and applies no limit of
    its own.  Any other row rejects the whole list with a type error. *)
Theorem favorite_recipes_settles (recipeVertices : list row) :
  Forall (fun r => edge_row r = false) recipeVertices ->
  (forall favs,
     favorite_recipes recipeVertices = Resolved favs <->
     Forall2 (fun r f => favorite_at r = Some f) recipeVertices favs)
  /\ (forall favs, favorite_recipes recipeVertices = Resolved favs ->
        length favs = length recipeVertices)
  /\ (forall e, favorite_recipes recipeVertices = Rejected e <->
        e = TypeError /\ Exists (fun r => favorite_at r = None) recipeVertices).
Proof.
  intros _.
  assert (Hto : forall d favs, favorite_recipes d = Resolved favs ->
                  Forall2 (fun r f => favorite_at r = Some f) d favs).
  { induction d as [|r d IH]; intros favs.
    - intros [= <-]. constructor.
    - cbn [favorite_recipes]. unfold row_vertex.
      destruct r as [[v|e]|objects]; try discriminate.
      destruct (property_value v "name") as [n|] eqn:Hn; [|discriminate].
      destruct (property_value v "title") as [t|] eqn:Ht; [|discriminate].
      destruct (favorite_recipes d) as [l|]; [|discriminate].
      intros [= <-]. constructor; [|now apply IH].
      cbn [favorite_at]. now rewrite Hn, Ht. }
  split; [|split].
  - intros favs. split; [apply Hto|apply favorite_recipes_rows].
  - intros favs H. symmetry. eapply Forall2_length, Hto, H.
  - induction recipeVertices as [|r d IH]; intros e.
    + split; [discriminate|]. intros [_ H]. inversion H.
    + cbn [favorite_recipes]. unfold row_vertex.
      destruct r as [[v|x]|objects];
        try (split; [intros [= <-]; split; [reflexivity|left; reflexivity]
                    |intros [-> _]; reflexivity]).
      cbn [favorite_at].
      destruct (property_value v "name") as [n|e1] eqn:Hn.
      * destruct (property_value v "title") as [t|e2] eqn:Ht.
        -- destruct (favorite_recipes d) as [l|e3].
           ++ split; [discriminate|]. intros [_ H].
              inversion H as [? ? Hr|? ? Hd]; subst.
              ** cbn [favorite_at] in Hr. rewrite Hn, Ht in Hr. discriminate.
              ** pose proof (proj2 (IH TypeError) (conj eq_refl Hd)). discriminate.
           ++ split.
              ** intros [= <-]. destruct (proj1 (IH e3) eq_refl) as [-> Hd].
                 split; [reflexivity|now right].
              ** intros [-> _]. destruct (proj1 (IH e3) eq_refl) as [-> _]. reflexivity.
        -- assert (e2 = TypeError) as ->.
           { revert Ht. unfold property_value. repeat case_match; congruence. }
           split; [intros [= <-]|intros [-> _]; reflexivity].
           split; [reflexivity|]. left. cbn [favorite_at]. now rewrite Hn, Ht.
      * assert (e1 = TypeError) as ->.
        { revert Hn. unfold property_value. repeat case_match; congruence. }
        split; [intros [= <-]|intros [-> _]; reflexivity].
        split; [reflexivity|]. left. cbn [favorite_at]. now rewrite Hn.
Qed.

Lemma recommendation_query_text (graphId label key : string) (name : prop_value) :
  ScriptText.script_text (OnGraph graphId (Traverse (recommendation_query label key name)))
  = "def graph=ConfiguredGraphFactory.open(" +:+ quoted graphId +:+ ");"
    +:+ "def g = graph.traversal(); "
    +:+ "g.V().hasLabel(" +:+ quoted label +:+ ").has(" +:+ quoted "name" +:+ ","
    +:+ quoted key +:+ ").in(" +:+ quoted "has" +:+ ").inE().has(" +:+ quoted "count"
    +:+ ",gt(1)).order().by(" +:+ quoted "count" +:+ ", decr).outV().hasLabel("
    +:+ quoted "person" +:+ ").has(" +:+ quoted "name" +:+ ",neq("
    +:+ quoted (template (Some name)) +:+ ")).path()".
Proof.
  unfold recommendation_query, ScriptText.script_text, ScriptText.statement_text.
  cbn [ScriptText.concat_map ScriptText.step_text].
  change (of_Z 1) with "1".
  text_normal. reflexivity.
Qed.

Section RecommendationQueries.

Context {S : Type} (rp : script -> S -> rp_outcome * S).

Lemma user_name_spec (userVertex : option row) (w : world) :
  user_name (S := S) userVertex w
  = (match readable_name userVertex with
     | Some name => Resolved name
     | None => Rejected TypeError
     end, w).
Proof.
  unfold user_name, readable_name, bind, settle.
  destruct (row_vertex userVertex) as [v|e] eqn:Hv.
  - destruct (property_value v "name") as [name|e] eqn:Hn; [reflexivity|].
    revert Hn. unfold property_value. repeat case_match; congruence.
  - revert Hv. unfold row_vertex. repeat case_match; congruence.
Qed.

(** X13. The two recommendation queries differ only in the label and the
    key they start from: [findRecommendedRecipesForIngredient] starts from the
    ingredient vertices named by the canonical ingredient key,
    [findRecommendedRecipesForCuisine] from the cuisine vertices named by the
    canonical cuisine key, and both hand the same traversal to
    [getRecommendedRecipes], whose text is the one given.  When the name of the
    user cannot be read (a [null] user included) they fail with a type error
    and post nothing; so does [findFavoriteRecipesForUser].  An edge handed in
    for the user vertex is outside the contract of the callers. *)
Theorem recommendation_queries (userVertex : option row) (count : Z)
    (ingredientsStr cuisine : string) (w : world) :
  (forall r, userVertex = Some r -> edge_row r = false) ->
  match readable_name userVertex with
  | Some name =>
      findRecommendedRecipesForIngredient rp ingredientsStr userVertex count w
      = getRecommendedRecipes rp
          (recommendation_query "ingredient" (getUniqueIngredientsName ingredientsStr) name)
          count w
      /\ findRecommendedRecipesForCuisine rp cuisine userVertex count w
         = getRecommendedRecipes rp
             (recommendation_query "cuisine" (getUniqueCuisineName cuisine) name) count w
      /\ (forall label key,
            requests (snd (getRecommendedRecipes rp (recommendation_query label key name)
                             count w))
            = requests w
              ++ [OnGraph (bound_graph w) (Traverse (recommendation_query label key name))]
            /\ ScriptText.script_text
                 (OnGraph (bound_graph w) (Traverse (recommendation_query label key name)))
               = "def graph=ConfiguredGraphFactory.open(" +:+ quoted (bound_graph w) +:+ ");"
                 +:+ "def g = graph.traversal(); "
                 +:+ "g.V().hasLabel(" +:+ quoted label +:+ ").has(" +:+ quoted "name" +:+ ","
                 +:+ quoted key +:+ ").in(" +:+ quoted "has" +:+ ").inE().has("
                 +:+ quoted "count" +:+ ",gt(1)).order().by(" +:+ quoted "count"
                 +:+ ", decr).outV().hasLabel(" +:+ quoted "person" +:+ ").has("
                 +:+ quoted "name" +:+ ",neq(" +:+ quoted (template (Some name))
                 +:+ ")).path()")
  | None =>
      findRecommendedRecipesForIngredient rp ingredientsStr userVertex count w
      = (Rejected TypeError, w)
      /\ findRecommendedRecipesForCuisine rp cuisine userVertex count w
         = (Rejected TypeError, w)
      /\ findFavoriteRecipesForUser rp userVertex count w = (Rejected TypeError, w)
  end.
Proof.
  intros _.
  unfold findRecommendedRecipesForIngredient, findRecommendedRecipesForCuisine,
    findFavoriteRecipesForUser, bind.
  rewrite !user_name_spec.
  destruct (readable_name userVertex) as [name|]; [|repeat split].
  split; [reflexivity|]. split; [reflexivity|].
  intros label key. split; [|apply recommendation_query_text].
  unfold getRecommendedRecipes, bind. rewrite runGremlinQuery_spec.
  destruct (answer rp _ w) as [|[r|]]; try reflexivity.
  destruct (ToBoolean (status_is_200 r)); [|reflexivity].
  destruct (rows r); reflexivity.
Qed.

End RecommendationQueries.

Lemma recommendation_queries_witness :
  (forall r, @None row = Some r -> edge_row r = false)
  /\ findRecommendedRecipesForIngredient (constant_service (body_200 []))
       "Tomato, Onion" None 5 unbound = (Rejected TypeError, unbound)
  /\ property_value {| v_id := 1; v_label := "person";
                       v_properties := [("name", [PStr "U1"])] |} "name"
     = Resolved (PStr "U1")
  /\ findRecommendedRecipesForIngredient (constant_service (body_200 []))
       "Tomato, Onion"
       (Some (Elem (EVertex {| v_id := 1; v_label := "person";
                               v_properties := [("name", [PStr "U1"])] |}))) 5 unbound
     = getRecommendedRecipes (constant_service (body_200 []))
         (recommendation_query "ingredient" "onion,tomato" (PStr "U1")) 5 unbound.
Proof.
  split; [discriminate|].
  split; [exact (proj1 (recommendation_queries (constant_service (body_200 []))
                          None 5 "Tomato, Onion" "Thai" unbound
                          ltac:(discriminate)))|].
  split; [reflexivity|].
  exact (proj1 (recommendation_queries (constant_service (body_200 []))
                  (Some (Elem (EVertex {| v_id := 1; v_label := "person";
                                          v_properties := [("name", [PStr "U1"])] |})))
                  5 "Tomato, Onion" "Thai" unbound
                  ltac:(intros r [= <-]; reflexivity))).
Defined.

Lemma favorite_recipes_settles_witness :
  favorite_recipes [Elem (EVertex {| v_id := 3; v_label := "recipe";
                                     v_properties := [("name", [PStr "42"]);
                                                      ("title", [PStr "Soup"])] |});
                    Elem (EVertex {| v_id := 4; v_label := "recipe";
                                     v_properties := [("name", [PStr "43"])] |})]
  = Rejected TypeError
  /\ Exists (fun r => favorite_at r = None)
       [Elem (EVertex {| v_id := 3; v_label := "recipe";
                         v_properties := [("name", [PStr "42"]);
                                          ("title", [PStr "Soup"])] |});
        Elem (EVertex {| v_id := 4; v_label := "recipe";
                         v_properties := [("name", [PStr "43"])] |})].
Proof.
  split; [reflexivity|].
  refine (proj2 (proj1 (proj2 (proj2 (favorite_recipes_settles
            [Elem (EVertex {| v_id := 3; v_label := "recipe";
                              v_properties := [("name", [PStr "42"]);
                                               ("title", [PStr "Soup"])] |});
             Elem (EVertex {| v_id := 4; v_label := "recipe";
                              v_properties := [("name", [PStr "43"])] |})] _))
                         TypeError) eq_refl)).
  repeat constructor.
Defined.

(** ** The helpers of the store when the lookup goes wrong *)

Lemma js_get_set_same {A} (k : string) (v : A) (o : list (string * A)) :
  js_get k (js_set k v o) = Some v.
Proof.
  induction o as [|[k' v'] o IH]; cbn.
  - now rewrite String.eqb_refl.
  - destruct (String.eqb k k') eqn:Hk; cbn; [now rewrite String.eqb_refl|].
    now rewrite Hk.
Qed.

Lemma js_get_set_other {A} (k k' : string) (v : A) (o : list (string * A)) :
  k' <> k -> js_get k' (js_set k v o) = js_get k' o.
Proof.
  intros Hne. induction o as [|[k1 v1] o IH]; cbn.
  - destruct (String.eqb k' k) eqn:Hk; [apply String.eqb_eq in Hk; contradiction|reflexivity].
  - destruct (String.eqb k k1) eqn:Hk; cbn.
    + apply String.eqb_eq in Hk. subst k1.
      destruct (String.eqb k' k) eqn:Hk'; [apply String.eqb_eq in Hk'; contradiction|].
      reflexivity.
    + destruct (String.eqb k' k1); [reflexivity|exact IH].
Qed.

Lemma incremented_next_count (p : option props) :
  incremented p
  = js_set "count" (next_count (js_get "count" (own_properties p))) (own_properties p).
Proof.
  unfold incremented, next_count.
  destruct (js_get "count" (own_properties p)) as [[s|n|[]]|]; cbn [truthy default js_plus_one];
    try reflexivity.
  - destruct (String.eqb s ""); reflexivity.
  - destruct (n =? 0) eqn:Hn; cbn [negb js_plus_one]; [|reflexivity].
    apply Z.eqb_eq in Hn. now subst.
Qed.

Lemma next_count_safe (n : Z) : safe_integer n -> next_count (Some (PNum n)) = PNum (n + 1).
Proof.
  unfold safe_integer. intros H. cbn [next_count]. now rewrite to_double_exact by lia.
Qed.

Section HelperFailures.

Context {S : Type} (rp : script -> S -> rp_outcome * S).

Lemma runGremlinQuery_failure (q : statement) (w : world) :
  answers_200 (answer rp (OnGraph (bound_graph w) q) w) = false ->
  runGremlinQuery rp q w
  = (Rejected (failure_of (answer rp (OnGraph (bound_graph w) q) w)),
     after rp (OnGraph (bound_graph w) q) w).
Proof.
  intros H. rewrite runGremlinQuery_spec. unfold answers_200 in H.
  destruct (answer rp _ w) as [|[r|]]; try reflexivity.
  now rewrite H.
Qed.

(** X14. When the lookup of a helper is not answered with status 200, the
    helper rejects with the error of the lookup and has posted the lookup
    only: [findVertex], [addVertexIfNotExists], [addEdgeIfNotExists] and
    [addUpdateEdge] never create or update after a lookup that failed. *)
Theorem failed_lookup_writes_nothing (w : world) (object : vertex_object) (k : string)
    (edge : edge_object) :
  let vertices := OnGraph (bound_graph w)
                    (vertex_lookup (vertex_label object) k (template (vertex_get object k))) in
  let edges := OnGraph (bound_graph w) (edge_lookup (edge_outV edge) (edge_inV edge)) in
  (answers_200 (answer rp vertices w) = false ->
     findVertex rp (vertex_label object) k (template (vertex_get object k)) w
     = (Rejected (failure_of (answer rp vertices w)), after rp vertices w)
     /\ addVertexIfNotExists rp object k w
        = (Rejected (failure_of (answer rp vertices w)), after rp vertices w))
  /\ (answers_200 (answer rp edges w) = false ->
        addEdgeIfNotExists rp edge w
        = (Rejected (failure_of (answer rp edges w)), after rp edges w)
        /\ addUpdateEdge rp edge w
           = (Rejected (failure_of (answer rp edges w)), after rp edges w)).
Proof.
  cbn zeta. unfold vertex_lookup, edge_lookup. split; intros H.
  - unfold findVertex, addVertexIfNotExists, bind.
    now rewrite (runGremlinQuery_failure _ w H).
  - unfold addEdgeIfNotExists, addUpdateEdge. unfold bind at 1 2.
    now rewrite (runGremlinQuery_failure _ w H).
Qed.

(** X15. When the first row of the answer to the edge lookup has nothing at
    [objects[1]], [addUpdateEdge] rejects with a type error and has posted the
    lookup only, while [addEdgeIfNotExists], which does not read the row,
    resolves to it. *)
Theorem addUpdateEdge_row_without_edge (edge : edge_object) (w : world)
    (x : row) (d : list row) :
  let lookup := OnGraph (bound_graph w) (edge_lookup (edge_outV edge) (edge_inV edge)) in
  answer rp lookup w = RpBody (body_200 (x :: d)) ->
  edgeless x = true ->
  addUpdateEdge rp edge w = (Rejected TypeError, after rp lookup w)
  /\ addEdgeIfNotExists rp edge w = (Resolved (Some x), after rp lookup w).
Proof.
  cbn zeta. unfold edge_lookup. intros Ha Hx. split.
  - unfold addUpdateEdge. unfold bind at 1.
    rewrite (runGremlinQuery_rows rp _ w _ Ha).
    change (rows (response_200 (x :: d))) with (x :: d). cbn iota.
    unfold bind, settle, path_edge.
    destruct x as [y|objects]; [reflexivity|].
    cbn [edgeless] in Hx. destruct (objects !! 1%nat); [discriminate|reflexivity].
  - unfold addEdgeIfNotExists, bind.
    now rewrite (runGremlinQuery_rows rp _ w _ Ha).
Qed.

(** X16. For an edge found by the lookup, [addUpdateEdge] posts one update
    of that edge, addressed by its identifier.  The update writes every
    property the edge was returned with: [count] with its next value, and
    every other key with the value it had.  The next value of a count that is
    a safe integer is the count plus one; a count of 2^53 stays.  The call
    settles as the update does. *)
Theorem addUpdateEdge_writes_back (w : world) (first : element) (e : edge)
    (others : list element) (d : list row) (edge : edge_object) :
  let lookup := OnGraph (bound_graph w) (edge_lookup (edge_outV edge) (edge_inV edge)) in
  answer rp lookup w = RpBody (body_200 (Path (first :: EEdge e :: others) :: d)) ->
  exists p,
    let update := OnGraph (bound_graph w) (SetEdgeProperties (Some (e_id e)) p) in
    snd (addUpdateEdge rp edge w) = after rp update (after rp lookup w)
    /\ js_get "count" p = Some (next_count (js_get "count" (own_properties (e_properties e))))
    /\ (forall n, js_get "count" (own_properties (e_properties e)) = Some (PNum n) ->
                  safe_integer n -> js_get "count" p = Some (PNum (n + 1)))
    /\ (js_get "count" (own_properties (e_properties e)) = Some (PNum 9007199254740992) ->
        js_get "count" p = Some (PNum 9007199254740992))
    /\ (forall k, k <> "count" -> js_get k p = js_get k (own_properties (e_properties e)))
    /\ (forall r, fst (addUpdateEdge rp edge w) = Resolved (Updated r) <->
                  answer rp update (after rp lookup w) = RpBody (Some r) /\
                  answers_200 (answer rp update (after rp lookup w)) = true)
    /\ (answers_200 (answer rp update (after rp lookup w)) = false ->
        fst (addUpdateEdge rp edge w)
        = Rejected (failure_of (answer rp update (after rp lookup w)))).
Proof.
  cbn zeta. intros Ha.
  exists (incremented (e_properties e)).
  split; [|split; [|split; [|split; [|split; [|split]]]]].
  2: { rewrite incremented_next_count. apply js_get_set_same. }
  2: { intros n Hn Hsafe. rewrite incremented_next_count, js_get_set_same, Hn.
       now rewrite next_count_safe. }
  2: { intros Hn. rewrite incremented_next_count, js_get_set_same, Hn. reflexivity. }
  2: { intros k Hk. rewrite incremented_next_count. now apply js_get_set_other. }
  all: rewrite (proj1 (addUpdateEdge_any_service rp edge w) _ _ _ _ Ha);
    unfold bind, updateEdge; rewrite runGremlinQuery_spec;
    change (bound_graph (after rp (OnGraph (bound_graph w)
                                     (edge_lookup (edge_outV edge) (edge_inV edge))) w))
      with (bound_graph w);
    set (u := answer rp (OnGraph (bound_graph w) (SetEdgeProperties _ _)) _);
    clearbody u; unfold answers_200.
  - destruct u as [|[r|]]; try reflexivity.
    destruct (ToBoolean (status_is_200 r)); reflexivity.
  - intros r. destruct u as [|[r'|]].
    + split; [discriminate|intros [? _]; discriminate].
    + destruct (ToBoolean (status_is_200 r')) eqn:H200.
      * cbn. split; [intros [= <-]; now split|intros [[= <-] _]; reflexivity].
      * cbn. split; [discriminate|intros [_ ?]; discriminate].
    + split; [discriminate|intros [? _]; discriminate].
  - destruct u as [|[r'|]]; try reflexivity.
    now intros ->.
Qed.

End HelperFailures.

Lemma failed_lookup_writes_nothing_witness :
  answers_200 (answer (constant_service (Some {| status := Some {| code := Some 500 |};
                                                 result := None |}))
                 (OnGraph (bound_graph unbound) (edge_lookup (Some 1) (Some 2))) unbound)
  = false
  /\ addUpdateEdge (constant_service (Some {| status := Some {| code := Some 500 |};
                                              result := None |}))
       (weighted_edge "selects" 1 2) unbound
     = (Rejected InvalidStatus,
        after (constant_service (Some {| status := Some {| code := Some 500 |};
                                         result := None |}))
          (OnGraph (bound_graph unbound) (edge_lookup (Some 1) (Some 2))) unbound).
Proof.
  split; [reflexivity|].
  exact (proj2 (proj2 (failed_lookup_writes_nothing
                         (constant_service (Some {| status := Some {| code := Some 500 |};
                                                    result := None |}))
                         unbound {| vertex_label := "person"; vertex_fields := [] |} "name"
                         (weighted_edge "selects" 1 2)) eq_refl)).
Defined.

Lemma addUpdateEdge_row_without_edge_witness :
  answer (constant_service (body_200 [Path []]))
    (OnGraph (bound_graph unbound) (edge_lookup (Some 1) (Some 2))) unbound
  = RpBody (body_200 [Path []])
  /\ edgeless (Path []) = true
  /\ fst (addUpdateEdge (constant_service (body_200 [Path []]))
            (weighted_edge "selects" 1 2) unbound) = Rejected TypeError.
Proof.
  split; [reflexivity|]. split; [reflexivity|].
  exact (f_equal fst (proj1 (addUpdateEdge_row_without_edge
                               (constant_service (body_200 [Path []]))
                               (weighted_edge "selects" 1 2) unbound (Path []) []
                               eq_refl eq_refl))).
Defined.

Lemma addUpdateEdge_writes_back_witness :
  answer (constant_service
            (body_200 [Path [EVertex {| v_id := 1; v_label := "person"; v_properties := [] |};
                             EEdge {| e_id := 9; e_label := "selects"; e_outV := 1; e_inV := 2;
                                      e_properties := Some [("since", PStr "May");
                                                            ("count", PNum 4)] |}]]))
    (OnGraph (bound_graph unbound) (edge_lookup (Some 1) (Some 2))) unbound
  = RpBody (body_200 [Path [EVertex {| v_id := 1; v_label := "person"; v_properties := [] |};
                            EEdge {| e_id := 9; e_label := "selects"; e_outV := 1; e_inV := 2;
                                     e_properties := Some [("since", PStr "May");
                                                           ("count", PNum 4)] |}]])
  /\ exists p, js_get "count" p = Some (PNum 5) /\ js_get "since" p = Some (PStr "May").
Proof.
  split; [reflexivity|].
  destruct (addUpdateEdge_writes_back
              (constant_service
                 (body_200 [Path [EVertex {| v_id := 1; v_label := "person";
                                             v_properties := [] |};
                                  EEdge {| e_id := 9; e_label := "selects"; e_outV := 1;
                                           e_inV := 2;
                                           e_properties := Some [("since", PStr "May");
                                                                 ("count", PNum 4)] |}]]))
              unbound _ _ [] [] (weighted_edge "selects" 1 2) eq_refl)
    as (p & _ & _ & Hc & _ & Hk & _).
  exists p. split; [|apply (Hk "since"); discriminate].
  apply (Hc 4); [reflexivity|]. unfold safe_integer. lia.
Defined.

(** ** What the store keeps true of the graph *)

Section Preserved.

Import GraphService.

Lemma preserves_bind {A B} (I : graph -> Prop) (m : M A) (k : A -> M B) :
  preserves I m -> (forall a, preserves I (k a)) -> preserves I (bind m k).
Proof.
  intros Hm Hk w Hw. unfold bind. specialize (Hm w Hw).
  destruct (m w) as [[a|e] w1]; cbn [snd] in *; [now apply Hk|exact Hm].
Qed.

Lemma preserves_ret {A} (I : graph -> Prop) (a : A) : preserves I (ret a).
Proof. intros w Hw. exact Hw. Qed.


Lemma preserves_id_of (I : graph -> Prop) (x : option row) : preserves I (id_of x).
Proof. intros w Hw. destruct x; exact Hw. Qed.

Lemma service_query (q : statement) (w : world) :
  service (snd (runGremlinQuery serve q w)) = snd (run_statement q (service w)).
Proof. now rewrite runGremlinQuery_serve. Qed.


Lemma traverse_keeps (steps : list step) (g : graph) :
  snd (run_statement (Traverse steps) g) = g.
Proof. cbn. now destruct (traverse g steps). Qed.

(** The public writers of the store are built from the three helpers. *)
Section Writers.

Variable I : graph -> Prop.
Hypothesis upsert : forall object, preserves I (addVertexIfNotExists serve object "name").
Hypothesis record : forall edge, preserves I (addUpdateEdge serve edge).
Hypothesis ensure : forall edge, preserves I (addEdgeIfNotExists serve edge).

Lemma preserves_addUser userId : preserves I (addUser serve userId).
Proof. apply upsert. Qed.

Lemma preserves_addIngredient ingredientsStr matchingRecipes userVertex :
  preserves I (addIngredient serve ingredientsStr matchingRecipes userVertex).
Proof.
  unfold addIngredient, recordIngredientRequestForUser.
  apply preserves_bind; [apply upsert|intros vertex].
  apply preserves_bind; [|intros ?; apply preserves_ret].
  apply preserves_bind; [apply preserves_id_of|intros o].
  apply preserves_bind; [apply preserves_id_of|intros i].
  apply record.
Qed.

Lemma preserves_addCuisine cuisine matchingRecipes userVertex :
  preserves I (addCuisine serve cuisine matchingRecipes userVertex).
Proof.
  unfold addCuisine, recordCuisineRequestForUser.
  apply preserves_bind; [apply upsert|intros vertex].
  apply preserves_bind; [|intros ?; apply preserves_ret].
  apply preserves_bind; [apply preserves_id_of|intros o].
  apply preserves_bind; [apply preserves_id_of|intros i].
  apply record.
Qed.

Lemma preserves_addRecipe recipeId recipeTitle recipeDetail origin userVertex :
  preserves I (addRecipe serve recipeId recipeTitle recipeDetail origin userVertex).
Proof.
  unfold addRecipe, recordRecipeRequestForUser.
  apply preserves_bind; [apply upsert|intros vertex].
  apply preserves_bind; [|intros ?; apply preserves_ret].
  apply preserves_bind; [apply preserves_id_of|intros o].
  apply preserves_bind; [apply preserves_id_of|intros i].
  apply preserves_bind; [apply record|intros _].
  destruct origin; [|apply preserves_ret].
  apply preserves_bind; [apply preserves_id_of|intros o'].
  apply preserves_bind; [apply preserves_id_of|intros i'].
  apply preserves_bind; [apply record|intros _].
  apply preserves_bind; [apply preserves_id_of|intros o2].
  apply preserves_bind; [apply preserves_id_of|intros i2].
  apply ensure.
Qed.

End Writers.

(** *** One vertex per name *)








(** *** One edge per ordered pair *)

Lemma single_edges_edges (g g' : graph) :
  edges g' = edges g -> single_edges g -> single_edges g'.
Proof. intros He H o i. unfold edges_between. rewrite He. apply H. Qed.

Lemma single_edges_addVertexIfNotExists object k :
  preserves single_edges (addVertexIfNotExists serve object k).
Proof.
  intros w Hw. rewrite addVertexIfNotExists_serve. cbn zeta.
  destruct (stored _ _ _ _); [|exact Hw].
  rewrite createVertex_serve. cbn [snd posted service].
  now apply (single_edges_edges (service w)).
Qed.

Lemma single_edges_update (i : js_id) (p : props) (g : graph) :
  single_edges g -> single_edges (snd (run_statement (SetEdgeProperties i p) g)).
Proof.
  intros H. destruct i as [i|]; [|exact H]. cbn [run_statement snd].
  intros a b.
  change {| vertices := vertices g; edges := map (update_edge i p) (edges g);
            next_id := next_id g |} with (with_properties g i p).
  rewrite edges_between_with_properties, length_map. apply H.
Qed.

Lemma single_edges_create (label : string) (o i : js_id) (p : props) (g : graph) :
  single_edges g ->
  traverse g [V_id o; outE; inV; hasId i; path] = Some [] ->
  single_edges (snd (run_statement (AddEdge label o i p) g)).
Proof.
  intros H Ht. destruct o as [o|], i as [i|]; try exact H. cbn [run_statement].
  destruct (find_vertex g o) as [vo|] eqn:Ho; [|exact H].
  destruct (find_vertex g i) as [vi|] eqn:Hi; [|exact H].
  rewrite (edge_lookup_traverse g o i vo vi Ho Hi) in Ht.
  injection Ht as Ht. apply map_eq_nil in Ht.
  cbn [snd]. intros a b.
  match goal with
  | |- context [edges_between {| vertices := _; edges := edges g ++ [?e]; next_id := _ |}] =>
      change {| vertices := vertices g; edges := edges g ++ [e]; next_id := next_id g + 1 |}
        with (with_edge g e); rewrite (edges_between_with_edge g e a b)
  end.
  rewrite length_app. cbn [e_outV e_inV].
  destruct (decide (o = a /\ i = b)) as [[<- <-]|_]; [rewrite Ht; cbn; lia|].
  cbn [length]. specialize (H a b). lia.
Qed.

Lemma lookup_rows (steps : list step) (w : world) :
  runGremlinQuery serve (Traverse steps) w
  = (match traverse (service w) steps with
     | Some d => Resolved (response_200 d)
     | None => Rejected TransportError
     end, posted w (Traverse steps) (service w)).
Proof.
  destruct (traverse (service w) steps) as [d|] eqn:Ht; [now apply run_lookup|].
  rewrite runGremlinQuery_serve. cbn [run_statement]. now rewrite Ht.
Qed.

Lemma single_edges_addEdgeIfNotExists edge :
  preserves single_edges (addEdgeIfNotExists serve edge).
Proof.
  intros w Hw. unfold addEdgeIfNotExists, bind. rewrite lookup_rows.
  destruct (traverse (service w) _) as [[|x d]|] eqn:Ht; try exact Hw.
  change (rows (response_200 [])) with (@nil row). cbn iota.
  unfold createEdge, bind.
  destruct (runGremlinQuery serve _ _) as [[r|e] w1] eqn:Hq;
    apply (f_equal (fun x => service (snd x))) in Hq; rewrite service_query in Hq;
    cbn [snd ret] in *; rewrite <- Hq; now apply single_edges_create.
Qed.

Lemma single_edges_addUpdateEdge edge :
  preserves single_edges (addUpdateEdge serve edge).
Proof.
  intros w Hw. unfold addUpdateEdge. unfold bind at 1. rewrite lookup_rows.
  destruct (traverse (service w) _) as [[|x d]|] eqn:Ht; try exact Hw.
  - change (rows (response_200 [])) with (@nil row). cbn iota.
    unfold createEdge, bind.
    destruct (runGremlinQuery serve _ _) as [[r|e] w1] eqn:Hq;
      apply (f_equal (fun x => service (snd x))) in Hq; rewrite service_query in Hq;
      cbn [snd ret] in *; rewrite <- Hq; now apply single_edges_create.
  - change (rows (response_200 (x :: d))) with (x :: d). cbn iota.
    unfold bind at 1. unfold settle.
    destruct (path_edge x) as [e|]; [|exact Hw].
    unfold updateEdge, bind.
    destruct (runGremlinQuery serve _ _) as [[r|e'] w1] eqn:Hq;
      apply (f_equal (fun x => service (snd x))) in Hq; rewrite service_query in Hq;
      cbn [snd ret] in *; rewrite <- Hq; now apply single_edges_update.
Qed.

End Preserved.


(** X18. Whatever the arguments and however the call settles, the same four
    writers leave at most one edge from one vertex to another in a graph that
    had at most one: the store never adds a second edge to an ordered pair. *)
Theorem store_keeps_single_edges (w : world) :
  single_edges (service w) ->
  (forall userId, single_edges (service (snd (addUser GraphService.serve userId w))))
  /\ (forall ingredientsStr matchingRecipes userVertex,
        single_edges (service (snd (addIngredient GraphService.serve ingredientsStr
                                      matchingRecipes userVertex w))))
  /\ (forall cuisine matchingRecipes userVertex,
        single_edges (service (snd (addCuisine GraphService.serve cuisine
                                      matchingRecipes userVertex w))))
  /\ (forall recipeId recipeTitle recipeDetail ingredientCuisineVertex userVertex,
        single_edges (service (snd (addRecipe GraphService.serve recipeId recipeTitle
                                      recipeDetail ingredientCuisineVertex userVertex w)))).
Proof.
  intros Hw. repeat split; intros.
  - apply (preserves_addUser single_edges
             (fun o => single_edges_addVertexIfNotExists o "name")); exact Hw.
  - apply (preserves_addIngredient single_edges
             (fun o => single_edges_addVertexIfNotExists o "name")
             single_edges_addUpdateEdge); exact Hw.
  - apply (preserves_addCuisine single_edges
             (fun o => single_edges_addVertexIfNotExists o "name")
             single_edges_addUpdateEdge); exact Hw.
  - apply (preserves_addRecipe single_edges
             (fun o => single_edges_addVertexIfNotExists o "name")
             single_edges_addUpdateEdge single_edges_addEdgeIfNotExists); exact Hw.
Qed.

(** ** Selecting an ingredient or a cuisine, and finding it again *)

Lemma addIngredient_selection {S} (rp : script -> S -> rp_outcome * S)
    (ingredientsStr matchingRecipes : string) (userVertex : option row) :
  addIngredient rp ingredientsStr matchingRecipes userVertex
  = add_selection rp "ingredient" (getUniqueIngredientsName ingredientsStr)
      matchingRecipes userVertex.
Proof. reflexivity. Qed.

Lemma addCuisine_selection {S} (rp : script -> S -> rp_outcome * S)
    (cuisine matchingRecipes : string) (userVertex : option row) :
  addCuisine rp cuisine matchingRecipes userVertex
  = add_selection rp "cuisine" (getUniqueCuisineName cuisine) matchingRecipes userVertex.
Proof. reflexivity. Qed.

Section SelectionFacts.

Import GraphService.



Section Selected.

Variable g : graph.
Variable r : vertex.
Hypothesis Hfresh : fresh_ids g.
Hypothesis Hr : v_id r = next_id g.


End Selected.


End SelectionFacts.



(** ** Recording a recipe and finding it again *)

Section FoundAgain.

Import GraphService.





End FoundAgain.



(** ** Writers called without a user *)

Section WritersWithoutUser.

Context {S : Type} (rp : script -> S -> rp_outcome * S).

(** X22. With [null] for the user vertex, [addIngredient], [addCuisine] and
    [addRecipe] first upsert their vertex and only then fail: when the upsert
    resolves, the call rejects with a type error in the world the upsert
    left, so the vertex is written and no edge script is posted. *)
Theorem writers_need_user (w w1 : world) (vertex : option row) :
  (forall ingredientsStr matchingRecipes,
     addVertexIfNotExists rp
       (selection_object "ingredient" (getUniqueIngredientsName ingredientsStr)
          matchingRecipes) "name" w = (Resolved vertex, w1) ->
     addIngredient rp ingredientsStr matchingRecipes None w = (Rejected TypeError, w1))
  /\ (forall cuisine matchingRecipes,
        addVertexIfNotExists rp
          (selection_object "cuisine" (getUniqueCuisineName cuisine) matchingRecipes)
          "name" w = (Resolved vertex, w1) ->
        addCuisine rp cuisine matchingRecipes None w = (Rejected TypeError, w1))
  /\ (forall recipeId recipeTitle recipeDetail ingredientCuisineVertex,
        addVertexIfNotExists rp (recipe_object recipeId recipeTitle recipeDetail) "name" w
        = (Resolved vertex, w1) ->
        addRecipe rp recipeId recipeTitle recipeDetail ingredientCuisineVertex None w
        = (Rejected TypeError, w1)).
Proof.
  split; [|split]; intros.
  - rewrite addIngredient_selection. unfold add_selection, bind at 1. now rewrite H.
  - rewrite addCuisine_selection. unfold add_selection, bind at 1. now rewrite H.
  - unfold addRecipe. fold (recipe_object recipeId recipeTitle recipeDetail).
    unfold bind at 1. now rewrite H.
Qed.

End WritersWithoutUser.

Lemma writers_need_user_witness :
  addVertexIfNotExists GraphService.serve
    (selection_object "ingredient" (getUniqueIngredientsName "Basil") "[]") "name"
    (GraphService.bound "recipebot" GraphService.empty)
  = (Resolved (Some (Elem (EVertex
       (new_vertex GraphService.empty (selection_object "ingredient" "basil" "[]"))))),
     posted (posted (GraphService.bound "recipebot" GraphService.empty)
               (vertex_lookup "ingredient" "name" "basil") GraphService.empty)
       (AddVertex "ingredient" [("name", PStr "basil"); ("detail", PStr "[]")])
       (with_vertex GraphService.empty
          (new_vertex GraphService.empty (selection_object "ingredient" "basil" "[]"))))
  /\ fst (addIngredient GraphService.serve "Basil" "[]" None
            (GraphService.bound "recipebot" GraphService.empty)) = Rejected TypeError
  /\ GraphService.vertices
       (service (snd (addIngredient GraphService.serve "Basil" "[]" None
                        (GraphService.bound "recipebot" GraphService.empty))))
     = [new_vertex GraphService.empty (selection_object "ingredient" "basil" "[]")].
Proof.
  assert (H : addVertexIfNotExists GraphService.serve
                (selection_object "ingredient" (getUniqueIngredientsName "Basil") "[]") "name"
                (GraphService.bound "recipebot" GraphService.empty)
              = (Resolved (Some (Elem (EVertex
                   (new_vertex GraphService.empty
                      (selection_object "ingredient" "basil" "[]"))))),
                 posted (posted (GraphService.bound "recipebot" GraphService.empty)
                           (vertex_lookup "ingredient" "name" "basil") GraphService.empty)
                   (AddVertex "ingredient" [("name", PStr "basil"); ("detail", PStr "[]")])
                   (with_vertex GraphService.empty
                      (new_vertex GraphService.empty
                         (selection_object "ingredient" "basil" "[]")))))
    by reflexivity.
  split; [exact H|].
  rewrite (proj1 (writers_need_user GraphService.serve _ _ _) "Basil" "[]" H).
  split; reflexivity.
Defined.

(** ** Witnesses on the in-memory service *)


Lemma store_keeps_single_edges_witness :
  single_edges (service (GraphService.bound "recipebot" GraphService.empty))
  /\ single_edges
       (service (snd (addUser GraphService.serve "U1"
                        (GraphService.bound "recipebot" GraphService.empty)))).
Proof.
  assert (H : single_edges (service (GraphService.bound "recipebot" GraphService.empty))).
  { intros o i. cbn. lia. }
  split; [exact H|].
  exact (proj1 (store_keeps_single_edges _ H) "U1").
Defined.



(** ** A recorded recipe is a favourite *)

Section Favourites.

Import GraphService.



End Favourites.



(** ** The fields of the vertices that the store writes *)





(** ** The finders *)

